(** * archers-ui-library: Button, InputArea and InputField

    A shallow embedding of the three React components of the library and
    of the part of the React runtime they rely on (state hooks, effect
    hooks with dependency lists, object spread in JSX), followed by the
    properties of the validation-and-display contract.

    - [JsString]  : JavaScript strings as sequences of UTF-16 code units,
                    [String.prototype.trim].
    - [JsRegExp]  : the regular expressions of the source and
                    [RegExp.prototype.test].
    - [Button]    : [Button] of the button component.
    - [InputArea] : [InputArea] (the multi-line field).
    - [InputField]: [InputField] (the single-line field). *)

From Stdlib Require Import NArith Ascii String.
From stdpp Require Import base list strings gmap.

Local Open Scope N_scope.

(** ** JavaScript strings *)

Module JsString.

(** A JavaScript string is a sequence of 16-bit code units. *)
Abbreviation jsstring := (list N).

(** The code unit of an ASCII character, and the string of a literal. *)
Definition ch (a : ascii) : N := N_of_ascii a.

Fixpoint lit (s : string) : jsstring :=
  match s with
  | EmptyString => []
  | String a rest => ch a :: lit rest
  end.

Arguments lit : simpl never.

(** Inclusive ranges of code units, as in a character class. *)
Definition in_range (c : N) (r : N * N) : bool :=
  (fst r <=? c) && (c <=? snd r).

Definition in_ranges (c : N) (rs : list (N * N)) : bool :=
  existsb (in_range c) rs.

(** WhiteSpace and LineTerminator of ECMAScript: what [trim] strips and
    what the class escape [\s] matches. *)
Definition white_space : list (N * N) :=
  [ (9, 13); (32, 32); (160, 160); (5760, 5760); (8192, 8202);
    (8232, 8233); (8239, 8239); (8287, 8287); (12288, 12288);
    (65279, 65279) ].

Definition is_white_space (c : N) : bool := in_ranges c white_space.

Fixpoint trim_start (s : jsstring) : jsstring :=
  match s with
  | [] => []
  | c :: rest => if is_white_space c then trim_start rest else s
  end.

Definition trim_end (s : jsstring) : jsstring :=
  rev (trim_start (rev s)).

(** [s.trim()] *)
Definition trim (s : jsstring) : jsstring := trim_end (trim_start s).

(** Truthiness of a string: the empty string is the only falsy one. *)
Definition truthy (s : jsstring) : bool :=
  match s with [] => false | _ :: _ => true end.

(** [a || b] on strings. *)
Definition or_else (a b : jsstring) : jsstring :=
  if truthy a then a else b.

End JsString.

Import JsString.

(** ** Regular expressions *)

Module JsRegExp.

(** The fragment of the pattern language the source uses.  Every pattern
    of the source is anchored at both ends ([^...$], no flags), so [test]
    asks whether the whole string belongs to the language. *)
Inductive regex : Type :=
| Void : regex
| Eps : regex
| Class (negated : bool) (items : list (N * N)) : regex
| Cat (r1 r2 : regex) : regex
| Alt (r1 r2 : regex) : regex
| Star (r : regex) : regex
| And (r1 r2 : regex) : regex.

Definition class_mem (negated : bool) (items : list (N * N)) (c : N) : bool :=
  xorb negated (in_ranges c items).

(** The strings of a pattern. *)
Inductive matches : regex → jsstring → Prop :=
| matches_eps : matches Eps []
| matches_class n items c :
    class_mem n items c = true → matches (Class n items) [c]
| matches_cat r1 r2 s1 s2 :
    matches r1 s1 → matches r2 s2 → matches (Cat r1 r2) (s1 ++ s2)
| matches_alt_l r1 r2 s : matches r1 s → matches (Alt r1 r2) s
| matches_alt_r r1 r2 s : matches r2 s → matches (Alt r1 r2) s
| matches_star_nil r : matches (Star r) []
| matches_star_app r s1 s2 :
    matches r s1 → matches (Star r) s2 → matches (Star r) (s1 ++ s2)
| matches_and r1 r2 s :
    matches r1 s → matches r2 s → matches (And r1 r2) s.

Fixpoint nullable (r : regex) : bool :=
  match r with
  | Void => false
  | Eps => true
  | Class _ _ => false
  | Cat r1 r2 => nullable r1 && nullable r2
  | Alt r1 r2 => nullable r1 || nullable r2
  | Star _ => true
  | And r1 r2 => nullable r1 && nullable r2
  end.

(** Brzozowski derivative with respect to one code unit. *)
Fixpoint deriv (c : N) (r : regex) : regex :=
  match r with
  | Void => Void
  | Eps => Void
  | Class n items => if class_mem n items c then Eps else Void
  | Cat r1 r2 =>
      if nullable r1
      then Alt (Cat (deriv c r1) r2) (deriv c r2)
      else Cat (deriv c r1) r2
  | Alt r1 r2 => Alt (deriv c r1) (deriv c r2)
  | Star r1 => Cat (deriv c r1) (Star r1)
  | And r1 r2 => And (deriv c r1) (deriv c r2)
  end.

Fixpoint derivs (s : jsstring) (r : regex) : regex :=
  match s with
  | [] => r
  | c :: rest => derivs rest (deriv c r)
  end.

(** [r.test(s)] for a pattern anchored at both ends. *)
Definition test (r : regex) (s : jsstring) : bool := nullable (derivs s r).

(** Derived forms. *)
Definition plus (r : regex) : regex := Cat r (Star r).
Definition opt (r : regex) : regex := Alt r Eps.

Fixpoint at_least (n : nat) (r : regex) : regex :=
  match n with
  | O => Star r
  | S k => Cat r (at_least k r)
  end.

Definition one (a : ascii) : N * N := (ch a, ch a).
Definition rng (a b : ascii) : N * N := (ch a, ch b).
Definition char (a : ascii) : regex := Class false [one a].

(** [.] matches every code unit but the line terminators. *)
Definition dot : regex :=
  Class true [(10, 10); (13, 13); (8232, 8233)].

Definition anything : regex := Star (Class true []).

(** [(?=p)q] up to the end of the string: some prefix of the rest matches
    [p], and the rest matches [q]. *)
Definition lookahead (p q : regex) : regex := And (Cat p anything) q.

Definition digit : list (N * N) := [rng "0" "9"].
Definition letters : list (N * N) := [rng "a" "z"; rng "A" "Z"].

End JsRegExp.

Import JsRegExp.

(** ** The part of the React runtime the components use *)

Module React.

(** A handler or an effect runs inside one render: it reads the props and
    the state of that render (its closure), queues state updates and calls
    the caller's notifiers.  [update S C A] threads the queued state and the
    calls made so far. *)
Section Update.
Context {S C : Type}.

Definition update (A : Type) : Type := S → A * S * list C.

Definition ret {A} (a : A) : update A := λ s, (a, s, []).

Definition bind {A B} (m : update A) (k : A → update B) : update B :=
  λ s, let '(a, s1, c1) := m s in
       let '(b, s2, c2) := k a s1 in
       (b, s2, c1 ++ c2).

(** A state setter of [useState]. *)
Definition set (f : S → S) : update unit := λ s, (tt, f s, []).

(** A call of one of the caller's notifiers. *)
Definition emit (c : C) : update unit := λ s, (tt, s, [c]).

Definition skip : update unit := ret tt.

(** [cond && action()] and [if (cond) action()]. *)
Definition when (b : bool) (m : update unit) : update unit :=
  if b then m else skip.

Definition exec {A} (m : update A) (s : S) : S * list C :=
  let '(_, s', c) := m s in (s', c).
End Update.

(** [useEffect(f, deps)]: on mount the effect runs; on a later render it
    runs when a dependency differs from the previous render's. *)
Definition changed {D} `{EqDecision D} (prev : option D) (now : D) : bool :=
  match prev with
  | None => true
  | Some d => negb (bool_decide (d = now))
  end.

End React.

Import React.

(** The notations [x ← m; k] and [m;; k] sequence updates. *)
#[global] Instance update_ret {S C} : MRet (@update S C) := @ret S C.
#[global] Instance update_bind {S C} : MBind (@update S C) :=
  λ A B k m, bind m k.

(** ** Button *)

Module Button.

(** The values a prop of a native button can hold. *)
Inductive PropValue : Type :=
| Undefined
| Bool (b : bool)
| Str (s : jsstring)
| Num (text : jsstring)
| Fn (identity : nat).

#[global] Instance PropValue_eq_dec : EqDecision PropValue.
Proof. solve_decision. Defined.

(** A React element of a host component: its tag and its props object. *)
Record Element : Type := {
  tag : string;
  attributes : gmap string PropValue
}.

(** [{...target, ...source}]: the own keys of [source] are copied over
    [target]; a key present in both takes the value of [source]. *)
Definition spread (source target : gmap string PropValue)
  : gmap string PropValue := source ∪ target.

(** [<button className="text-amber-300" {...props} />] *)
Definition Button (props : gmap string PropValue) : Element :=
  {| tag := "button";
     attributes :=
       spread props {[ "className" := Str (lit "text-amber-300") ]} |}.

(** The class attribute is a list of tokens separated by ASCII
    whitespace (tab, line feed, form feed, carriage return, space). *)
Definition is_class_separator (c : N) : bool :=
  in_ranges c [(9, 10); (12, 13); (32, 32)].

Fixpoint class_tokens_from (cur : jsstring) (s : jsstring)
  : list jsstring :=
  match s with
  | [] => match cur with [] => [] | _ => [rev cur] end
  | c :: rest =>
      if is_class_separator c
      then match cur with
           | [] => class_tokens_from [] rest
           | _ => rev cur :: class_tokens_from [] rest
           end
      else class_tokens_from (c :: cur) rest
  end.

Definition class_tokens (s : jsstring) : list jsstring :=
  class_tokens_from [] s.

(** The element carries class [c]: its [className] is a string with [c]
    among its tokens. *)
Definition has_class (c : jsstring) (e : Element) : bool :=
  match attributes e !! "className" with
  | Some (Str s) => bool_decide (c ∈ class_tokens s)
  | _ => false
  end.

End Button.

(** ** InputArea: the multi-line field *)

Module InputArea.

(** [type: "description"] *)
Inductive Kind : Type := description.

Definition kind_name (k : Kind) : string :=
  match k with description => "description" end.

Record Rule : Type := { regex : JsRegExp.regex; message : jsstring }.

(** The props that reach the state and the notifiers.  [onValidationChange]
    is absent or a function, given by its identity; [required] absent is
    falsy and reads [false]; [isEditing] defaults to [true]. *)
Record Props : Type := {
  label : jsstring;
  value : jsstring;
  type : Kind;
  required : bool;
  onValidationChange : option nat;
  isEditing : bool
}.

(** The three [useState] cells. *)
Record State : Type := {
  isValid : bool;
  errorMessage : jsstring;
  characterCount : nat
}.

(** The message is non-empty exactly when the field is invalid. *)
Definition invariant (s : State) : Prop :=
  errorMessage s ≠ [] ↔ isValid s = false.

(** Calls of the caller's notifiers. *)
Inductive Call : Type :=
| OnChange (v : jsstring)
| OnValidationChange (valid : bool).

#[global] Instance Call_eq_dec : EqDecision Call.
Proof. solve_decision. Defined.

(** The values handed to the change notifier, in order. *)
Definition change_calls (cs : list Call) : list jsstring :=
  omap (λ c, match c with OnChange v => Some v | _ => None end) cs.

(** The values handed to the validation-state notifier, in order. *)
Definition validation_calls (cs : list Call) : list bool :=
  omap (λ c, match c with OnValidationChange b => Some b | _ => None end) cs.

Definition setIsValid (b : bool) : update (C:=Call) unit :=
  set (λ s, {| isValid := b; errorMessage := errorMessage s;
               characterCount := characterCount s |}).

Definition setErrorMessage (m : jsstring) : update (C:=Call) unit :=
  set (λ s, {| isValid := isValid s; errorMessage := m;
               characterCount := characterCount s |}).

Definition setCharacterCount (n : nat) : update (C:=Call) unit :=
  set (λ s, {| isValid := isValid s; errorMessage := errorMessage s;
               characterCount := n |}).

(** [/^[a-zA-Z0-9#\-_., ]+$/] *)
Definition resourceDescriptionRegex : JsRegExp.regex :=
  plus (Class false
          (letters ++ digit ++
           [one "#"; one "-"; one "_"; one "."; one ","; one " "])).

Definition validationRules : gmap string Rule :=
  {[ "description" :=
       {| regex := resourceDescriptionRegex;
          message := lit "Only Alphabets, numbers, and (#, _, -, .) allowed!" |} ]}.

(** [validationRules[type]] *)
Definition rule_of (k : Kind) : option Rule :=
  validationRules !! kind_name k.

(** [rule && !rule.regex.test(value)] *)
Definition rule_rejects (rule : option Rule) (v : jsstring) : bool :=
  match rule with
  | Some r => negb (test (regex r) v)
  | None => false
  end.

(** [typeof onValidationChange === "function"] guards every report. *)
Definition report (p : Props) (valid : bool) : update (S:=State) unit :=
  when (bool_decide (is_Some (onValidationChange p)))
       (emit (OnValidationChange valid)).

(** The calls [report] makes. *)
Definition reported (p : Props) (valid : bool) : list Call :=
  if bool_decide (is_Some (onValidationChange p))
  then [OnValidationChange valid] else [].

Definition validateInput (p : Props) (value : jsstring)
  : update (S:=State) bool :=
  let rule := rule_of (type p) in
  if negb (truthy (trim value)) && required p then
    setIsValid false;;
    setErrorMessage (lit "Field is required.");;
    report p false;;
    mret false
  else if truthy (trim value) && rule_rejects rule value then
    setIsValid false;;
    setErrorMessage (from_option message [] rule);; (* [rule] is defined here *)
    report p false;;
    mret false
  else
    setIsValid true;;
    setErrorMessage [];;
    report p true;;
    mret true.

(** [onBlur={handleBlur}] *)
Definition handleBlur (p : Props) : update (S:=State) unit :=
  validateInput p (value p);; mret tt.

(** The [onChange] of the textarea, [v] being [e.target.value]. *)
Definition textarea_onChange (p : Props) (v : jsstring)
  : update (S:=State) unit :=
  when (bool_decide (length v = 0%nat)) (emit (OnChange v));;
  ok ← validateInput p v;
  when ok (emit (OnChange v)).

(** The effects, in the order of the source; [s] is the state of the
    render whose closure they hold. *)
Definition effect_isValid (p : Props) (s : State) : update (S:=State) unit :=
  report p (isValid s).

Definition effect_value (p : Props) : update (S:=State) (C:=Call) unit :=
  setCharacterCount (length (value p)).

(** Run the effects of the render of [(p, s)] whose dependencies differ
    from those of the previous render [prev] ([None] on mount). *)
Definition effects (prev : option (Props * State)) (p : Props) (s : State)
  : update (S:=State) unit :=
  when (changed ((λ r, (isValid r.2, onValidationChange r.1)) <$> prev)
                (isValid s, onValidationChange p))
       (effect_isValid p s);;
  when (changed ((λ r, value r.1) <$> prev) (value p))
       (effect_value p).

(** Commit a render: its effects run; the state they queued is rendered
    in turn and the effects of that second render run. *)
Definition commit (prev : option (Props * State)) (p : Props) (s : State)
  : State * list Call :=
  let '(s1, c1) := exec (effects prev p s) s in
  let '(s2, c2) := exec (effects (Some (p, s)) p s1) s1 in
  (s2, c1 ++ c2).

Record Instance : Type := { props : Props; state : State }.

Definition initial (p : Props) : State :=
  {| isValid := true; errorMessage := [];
     characterCount := length (value p) |}.

Definition mount (p : Props) : Instance * list Call :=
  let '(s, c) := commit None p (initial p) in
  ({| props := p; state := s |}, c).

(** What can happen to a mounted field: the user edits the text (the
    control proposes [v]), the control loses focus, the caller renders
    the field again with new props.  The state updates a handler queues
    are applied together when it returns.  The value is the caller's: a
    change only proposes it, and the field sees it when the caller
    renders it again. *)
Inductive Event : Type :=
| Change (v : jsstring)
| Blur
| Render (p : Props).

Definition handle (i : Instance) (m : update (S:=State) (C:=Call) unit)
  : Instance * list Call :=
  let '(s1, c1) := exec m (state i) in
  let '(s2, c2) := commit (Some (props i, state i)) (props i) s1 in
  ({| props := props i; state := s2 |}, c1 ++ c2).

(** The textarea exists only while [isEditing] holds. *)
Definition step (i : Instance) (e : Event) : Instance * list Call :=
  match e with
  | Change v =>
      if isEditing (props i) then handle i (textarea_onChange (props i) v)
      else (i, [])
  | Blur =>
      if isEditing (props i) then handle i (handleBlur (props i))
      else (i, [])
  | Render p =>
      let '(s, c) := commit (Some (props i, state i)) p (state i) in
      ({| props := p; state := s |}, c)
  end.

Fixpoint steps (i : Instance) (es : list Event) : Instance * list Call :=
  match es with
  | [] => (i, [])
  | e :: rest =>
      let '(i1, c1) := step i e in
      let '(i2, c2) := steps i1 rest in
      (i2, c1 ++ c2)
  end.

Definition run (p : Props) (es : list Event) : Instance * list Call :=
  let '(i0, c0) := mount p in
  let '(i1, c1) := steps i0 es in
  (i1, c0 ++ c1).

(** The caller renders the field again with one prop changed. *)
Definition with_value (v : jsstring) (p : Props) : Props :=
  {| label := label p; value := v; type := type p; required := required p;
     onValidationChange := onValidationChange p; isEditing := isEditing p |}.

Definition with_required (b : bool) (p : Props) : Props :=
  {| label := label p; value := value p; type := type p; required := b;
     onValidationChange := onValidationChange p; isEditing := isEditing p |}.

Definition with_onValidationChange (f : option nat) (p : Props) : Props :=
  {| label := label p; value := value p; type := type p;
     required := required p;
     onValidationChange := f; isEditing := isEditing p |}.

(** The props of the [Default] story, mounted with the empty value. *)
Definition Default : Props :=
  {| label := lit "Description"; value := []; type := description;
     required := true; onValidationChange := None; isEditing := true |}.

End InputArea.

(** ** InputField: the single-line field *)

Module InputField.

Inductive Kind : Type :=
| alphabets | resource_name | email | password | passwordVisible
| file | number.

#[global] Instance Kind_eq_dec : EqDecision Kind.
Proof. solve_decision. Defined.

Definition kind_name (k : Kind) : string :=
  match k with
  | alphabets => "alphabets"
  | resource_name => "resource_name"
  | email => "email"
  | password => "password"
  | passwordVisible => "passwordVisible"
  | file => "file"
  | number => "number"
  end.

(** [value: string | number | undefined].  The component reads a value
    only through [toString()], so a number is carried by the text that
    [Number.prototype.toString] prints for it. *)
Inductive Value : Type :=
| ValUndefined
| ValString (s : jsstring)
| ValNumber (text : jsstring).

#[global] Instance Value_eq_dec : EqDecision Value.
Proof. solve_decision. Defined.

(** [value?.toString()] *)
Definition toString (v : Value) : option jsstring :=
  match v with
  | ValUndefined => None
  | ValString s => Some s
  | ValNumber text => Some text
  end.

Record Rule : Type := { regex : JsRegExp.regex; message : jsstring }.

(** [errorObject?: { error: boolean; message: string }] *)
Record ErrorObject : Type := { error : bool; error_message : jsstring }.

(** The props that reach the state and the notifiers.  Optional callbacks
    are absent or a function, given by its identity; [required] absent is
    falsy and reads [false]; [isEditing] defaults to [true]. *)
Record Props : Type := {
  label : jsstring;
  value : Value;
  type : Kind;
  required : bool;
  onValidationChange : option nat;
  isEditing : bool;
  usedFor : option jsstring;
  handleFocusOut : option nat;
  errorObject : option ErrorObject
}.

Record State : Type := {
  isValid : bool;
  errorMessage : jsstring;
  characterCount : nat
}.

(** The message is non-empty exactly when the field is invalid. *)
Definition invariant (s : State) : Prop :=
  errorMessage s ≠ [] ↔ isValid s = false.

Inductive Call : Type :=
| OnChange (v : jsstring)
| OnValidationChange (valid : bool)
| HandleFocusOut.

#[global] Instance Call_eq_dec : EqDecision Call.
Proof. solve_decision. Defined.

(** The values handed to the change notifier, in order. *)
Definition change_calls (cs : list Call) : list jsstring :=
  omap (λ c, match c with OnChange v => Some v | _ => None end) cs.

(** The values handed to the validation-state notifier, in order. *)
Definition validation_calls (cs : list Call) : list bool :=
  omap (λ c, match c with OnValidationChange b => Some b | _ => None end) cs.

Definition setIsValid (b : bool) : update (C:=Call) unit :=
  set (λ s, {| isValid := b; errorMessage := errorMessage s;
               characterCount := characterCount s |}).

Definition setErrorMessage (m : jsstring) : update (C:=Call) unit :=
  set (λ s, {| isValid := isValid s; errorMessage := m;
               characterCount := characterCount s |}).

Definition setCharacterCount (n : nat) : update (C:=Call) unit :=
  set (λ s, {| isValid := isValid s; errorMessage := errorMessage s;
               characterCount := n |}).

(** [/^[^\s@]+@[^\s@]+\.[^\s@]+$/] *)
Definition emailRegex : JsRegExp.regex :=
  let c := Class true (white_space ++ [one "@"]) in
  Cat (plus c) (Cat (char "@") (Cat (plus c) (Cat (char ".") (plus c)))).

Definition symbols : list (N * N) :=
  [one "!"; one "@"; one "#"; one "$"; one "%"; one "^"; one "&";
   one "*"; one "("; one ")"; one "_"; one "+"].

(** [/^(?=.*[a-z])(?=.*[A-Z])(?=.*\d)(?=.*[!@#$%^&*()_+])[a-zA-Z\d!@#$%^&*()_+]{10,}$/] *)
Definition passwordRegex : JsRegExp.regex :=
  lookahead (Cat (Star dot) (Class false [rng "a" "z"]))
 (lookahead (Cat (Star dot) (Class false [rng "A" "Z"]))
 (lookahead (Cat (Star dot) (Class false digit))
 (lookahead (Cat (Star dot) (Class false symbols))
   (at_least 10 (Class false (letters ++ digit ++ symbols)))))).

(** [/^[a-zA-Z]+$/] *)
Definition alphabetsRegex : JsRegExp.regex := plus (Class false letters).

(** [/^[a-zA-Z0-9#\-_ ]+$/] *)
Definition resourceNameRegex : JsRegExp.regex :=
  plus (Class false (letters ++ digit ++ [one "#"; one "-"; one "_"; one " "])).

(** [/^[a-zA-Z0-9\s-]*$/] *)
Definition titleRegex : JsRegExp.regex :=
  Star (Class false (letters ++ digit ++ white_space ++ [one "-"])).

Definition passwordMessage : jsstring :=
  lit "Must be at least 10 characters long. Include at least one lowercase letter, one uppercase letter, one number, and one special character (!@#$%^&*()_+).".

Definition validationRules : gmap string Rule :=
  <["alphabets" := {| regex := alphabetsRegex;
                      message := lit "Only Alphabets allowed!" |}]>
 (<["resource_name" :=
      {| regex := resourceNameRegex;
         message := lit "Only Alphabets, numbers and (#, _, -) allowed!" |}]>
 (<["email" := {| regex := emailRegex;
                  message := lit "Invalid email format." |}]>
 (<["passwordVisible" := {| regex := passwordRegex;
                            message := passwordMessage |}]>
 (<["password" := {| regex := passwordRegex;
                     message := passwordMessage |}]>
 (<["title" := {| regex := titleRegex;
                  message := lit " should not contain special characters." |}]>
  ∅))))).

(** [validationRules[type]] *)
Definition rule_of (k : Kind) : option Rule :=
  validationRules !! kind_name k.

(** [!value?.toString()?.trim()] *)
Definition blank (v : Value) : bool :=
  match toString v with
  | Some s => negb (truthy (trim s))
  | None => true
  end.

(** [rule && value?.toString().length && !rule.regex.test(value.toString())] *)
Definition rule_rejects (rule : option Rule) (v : Value) : bool :=
  match rule, toString v with
  | Some r, Some s => bool_decide (length s ≠ 0%nat) && negb (test (regex r) s)
  | _, _ => false
  end.

Definition report (p : Props) (valid : bool) : update (S:=State) unit :=
  when (bool_decide (is_Some (onValidationChange p)))
       (emit (OnValidationChange valid)).

(** The calls [report] makes. *)
Definition reported (p : Props) (valid : bool) : list Call :=
  if bool_decide (is_Some (onValidationChange p))
  then [OnValidationChange valid] else [].

(** [validateInput] reads [value] from the props and [isValid] from the
    state of the render [s] it was created in. *)
Definition validateInput (p : Props) (s : State) : update (S:=State) unit :=
  let rule := rule_of (type p) in
  (if blank (value p) && required p then
     setIsValid false;;
     setErrorMessage (label p ++ lit " is required.")
   else if rule_rejects rule (value p) then
     setIsValid false;;
     setErrorMessage (from_option message [] rule) (* [rule] is defined here *)
   else
     setIsValid true;;
     setErrorMessage []);;
  report p (isValid s).

Definition handleBlur (p : Props) (s : State) : update (S:=State) unit :=
  if bool_decide (usedFor p = Some (lit "range")) then
    when (bool_decide (is_Some (handleFocusOut p))) (emit HandleFocusOut)
  else
    validateInput p s.

(** [/^[+-]?\d+(\.\d+)?$/] *)
Definition numberRegex : JsRegExp.regex :=
  Cat (opt (Class false [one "+"; one "-"]))
      (Cat (plus (Class false digit))
           (opt (Cat (char ".") (plus (Class false digit))))).

(** The [onChange] of the input, [v] being [e.target.value]. *)
Definition input_onChange (p : Props) (v : jsstring)
  : update (S:=State) unit :=
  if bool_decide (type p = number) && test numberRegex v then
    emit (OnChange v)
  else
    emit (OnChange v).

(** [errorObject?.error] *)
Definition error_flag (p : Props) : option bool := error <$> errorObject p.

Definition effect_errorObject (p : Props) : update (S:=State) (C:=Call) unit :=
  when (bool_decide (error_flag p = Some true))
       (setIsValid false;;
        setErrorMessage
          (or_else (from_option error_message [] (errorObject p)) [])).

Definition effect_isValid (p : Props) (s : State) : update (S:=State) unit :=
  report p (isValid s).

(** [value?.toString().length || 0] *)
Definition effect_value (p : Props) : update (S:=State) (C:=Call) unit :=
  setCharacterCount (from_option length 0%nat (toString (value p))).

Definition effects (prev : option (Props * State)) (p : Props) (s : State)
  : update (S:=State) unit :=
  when (changed ((λ r, error_flag r.1) <$> prev) (error_flag p))
       (effect_errorObject p);;
  when (changed ((λ r, isValid r.2) <$> prev) (isValid s))
       (effect_isValid p s);;
  when (changed ((λ r, value r.1) <$> prev) (value p))
       (effect_value p).

Definition commit (prev : option (Props * State)) (p : Props) (s : State)
  : State * list Call :=
  let '(s1, c1) := exec (effects prev p s) s in
  let '(s2, c2) := exec (effects (Some (p, s)) p s1) s1 in
  (s2, c1 ++ c2).

Record Instance : Type := { props : Props; state : State }.

Definition initial (p : Props) : State :=
  {| isValid := true; errorMessage := [];
     characterCount := from_option length 0%nat (toString (value p)) |}.

Definition mount (p : Props) : Instance * list Call :=
  let '(s, c) := commit None p (initial p) in
  ({| props := p; state := s |}, c).

(** The events of a mounted field, as for InputArea: a change proposed
    by the control, a focus loss, a render by the caller with new props
    (a new value, a new external error object, ...). *)
Inductive Event : Type :=
| Change (v : jsstring)
| Blur
| Render (p : Props).

(** Run a handler in the current render, then commit the render of the
    state it queued. *)
Definition handle (i : Instance) (m : update (S:=State) (C:=Call) unit)
  : Instance * list Call :=
  let '(s1, c1) := exec m (state i) in
  let '(s2, c2) := commit (Some (props i, state i)) (props i) s1 in
  ({| props := props i; state := s2 |}, c1 ++ c2).

(** The input exists only while [isEditing] holds. *)
Definition step (i : Instance) (e : Event) : Instance * list Call :=
  match e with
  | Change v =>
      if isEditing (props i) then handle i (input_onChange (props i) v)
      else (i, [])
  | Blur =>
      if isEditing (props i) then handle i (handleBlur (props i) (state i))
      else (i, [])
  | Render p =>
      let '(s, c) := commit (Some (props i, state i)) p (state i) in
      ({| props := p; state := s |}, c)
  end.

Fixpoint steps (i : Instance) (es : list Event) : Instance * list Call :=
  match es with
  | [] => (i, [])
  | e :: rest =>
      let '(i1, c1) := step i e in
      let '(i2, c2) := steps i1 rest in
      (i2, c1 ++ c2)
  end.

Definition run (p : Props) (es : list Event) : Instance * list Call :=
  let '(i0, c0) := mount p in
  let '(i1, c1) := steps i0 es in
  (i1, c0 ++ c1).

(** The external error object that forces the field invalid with
    message [x]. *)
Definition flagged (x : jsstring) : ErrorObject :=
  {| error := true; error_message := x |}.

(** The handler that forwards every change to the caller once. *)
Definition forward_always (v : jsstring) : update (S:=State) unit :=
  emit (OnChange v).

(** An external error object with its flag set carries a message. *)
Definition error_has_message (p : Props) : Prop :=
  ∀ o, errorObject p = Some o → error o = true → error_message o ≠ [].

Definition event_has_message (e : Event) : Prop :=
  match e with
  | Render p => error_has_message p
  | _ => True
  end.

(** The caller renders the field again with one prop changed. *)
Definition with_value (v : Value) (p : Props) : Props :=
  {| label := label p; value := v; type := type p; required := required p;
     onValidationChange := onValidationChange p; isEditing := isEditing p;
     usedFor := usedFor p; handleFocusOut := handleFocusOut p;
     errorObject := errorObject p |}.

Definition with_type (k : Kind) (p : Props) : Props :=
  {| label := label p; value := value p; type := k; required := required p;
     onValidationChange := onValidationChange p; isEditing := isEditing p;
     usedFor := usedFor p; handleFocusOut := handleFocusOut p;
     errorObject := errorObject p |}.

Definition with_required (b : bool) (p : Props) : Props :=
  {| label := label p; value := value p; type := type p; required := b;
     onValidationChange := onValidationChange p; isEditing := isEditing p;
     usedFor := usedFor p; handleFocusOut := handleFocusOut p;
     errorObject := errorObject p |}.

Definition with_onValidationChange (f : option nat) (p : Props) : Props :=
  {| label := label p; value := value p; type := type p;
     required := required p;
     onValidationChange := f; isEditing := isEditing p;
     usedFor := usedFor p; handleFocusOut := handleFocusOut p;
     errorObject := errorObject p |}.

Definition with_errorObject (o : option ErrorObject) (p : Props) : Props :=
  {| label := label p; value := value p; type := type p;
     required := required p;
     onValidationChange := onValidationChange p; isEditing := isEditing p;
     usedFor := usedFor p; handleFocusOut := handleFocusOut p;
     errorObject := o |}.

(** The props of the [Default] story, mounted with the empty value. *)
Definition Default : Props :=
  {| label := lit "Email"; value := ValString []; type := email;
     required := true; onValidationChange := None; isEditing := true;
     usedFor := None; handleFocusOut := None; errorObject := None |}.

End InputField.

(** ** What the components render *)

Module View.

(** The handlers a component defines itself and hands to its control. *)
Inductive Handler : Type := OwnChange | OwnBlur.

(** The value of a JSX attribute. *)
Inductive Attr : Type :=
| AUndefined
| ABool (b : bool)
| AStr (s : jsstring)
| ANum (n : nat)
| ANumberText (text : jsstring)
| ACallback (f : nat)
| AOwn (h : Handler).

(** What a JSX expression renders: [false], [null] and [undefined] render
    nothing; a string, a number, an element, a fragment. *)
#[warnings="-register-all"] Inductive Node : Type :=
| Nothing
| Text (s : jsstring)
| Number (n : nat)
| Element (tag : string) (attrs : list (string * Attr))
          (children : list Node)
| Fragment (children : list Node).

(** [{cond && node}] for a boolean [cond]. *)
Definition cond (b : bool) (n : Node) : Node := if b then n else Nothing.

(** Optional props as attributes. *)
Definition opt_str (o : option jsstring) : Attr := from_option AStr AUndefined o.
Definition opt_bool (o : option bool) : Attr := from_option ABool AUndefined o.
Definition opt_num (o : option nat) : Attr := from_option ANum AUndefined o.
Definition opt_callback (o : option nat) : Attr :=
  from_option ACallback AUndefined o.

(** Template literals: [${b && s}] for a boolean, for an optional boolean
    and for an optional number, and [${o}] for an optional string.  What
    is not a string is printed: [false], [undefined], [0]. *)
Definition tpl_and (b : bool) (s : jsstring) : jsstring :=
  if b then s else lit "false".

Definition tpl_opt_and (o : option bool) (s : jsstring) : jsstring :=
  match o with
  | None => lit "undefined"
  | Some false => lit "false"
  | Some true => s
  end.

Definition tpl_num_and (o : option nat) (s : jsstring) : jsstring :=
  match o with
  | None => lit "undefined"
  | Some O => lit "0"
  | Some (S _) => s
  end.

Definition tpl_opt (o : option jsstring) : jsstring :=
  default (lit "undefined") o.

(** [!!maxLength] *)
Definition num_truthy (o : option nat) : bool :=
  match o with Some (S _) => true | _ => false end.

(** The pieces of text a tree shows, in document order: the non-empty
    strings and the numbers. *)
Fixpoint leaves (n : Node) : list Node :=
  match n with
  | Nothing => []
  | Text s => if truthy s then [Text s] else []
  | Number k => [Number k]
  | Element _ _ cs => flat_map leaves cs
  | Fragment cs => flat_map leaves cs
  end.

(** The elements of a tree with a given tag, in document order. *)
Fixpoint elements (t : string) (n : Node) : list Node :=
  match n with
  | Element t' attrs cs =>
      (if bool_decide (t' = t) then [n] else [])
      ++ flat_map (elements t) cs
  | Fragment cs => flat_map (elements t) cs
  | _ => []
  end.

(** The attribute of an element. *)
Definition attr (name : string) (n : Node) : option Attr :=
  match n with
  | Element _ attrs _ => snd <$> find (λ a, bool_decide (a.1 = name)) attrs
  | _ => None
  end.

(** The element carries class [c]. *)
Definition has_class (c : jsstring) (n : Node) : bool :=
  match attr "className" n with
  | Some (AStr s) => bool_decide (c ∈ Button.class_tokens s)
  | _ => false
  end.

End View.

Module InputAreaView.
Import View InputArea.

(** The props that only reach the rendered tree; all optional but [id],
    which the stories leave out. *)
Record Display : Type := {
  id : option jsstring;
  placeholder : option jsstring;
  disabled : option bool;
  handleClick : option nat;
  readOnly : option bool;
  maxLength : option nat;
  rows : option nat;
  cols : option nat;
  additionalLabelClass : option jsstring;
  handleKeyDown : option nat
}.

(** The [return] of [InputArea]. *)
Definition render (p : Props) (d : Display) (s : State) : Node :=
  Element "div" [("className", AStr (lit "relative"))]
    [ Element "p"
        [("className",
          AStr (lit "text-left font-semibold text-sm "
                ++ tpl_and (isEditing p) (lit "mb-2") ++ lit " "
                ++ tpl_opt (additionalLabelClass d)))]
        [ Text (label p);
          (if required p
           then (if truthy (label p)
                 then Element "span"
                        [("className", AStr (lit "text-red-500"))]
                        [Text (lit " *")]
                 else Text (label p))
           else Nothing) ];
      cond (isEditing p)
        (Fragment
           [ Element "textarea"
               [("className",
                 AStr (lit "w-full form-input "
                       ++ tpl_and (negb (isValid s)) (lit "border-red-500")
                       ++ lit " resize-none disabled:text-gray-400 no-scrollbar"));
                ("id", opt_str (id d));
                ("value", AStr (value p));
                ("placeholder", opt_str (placeholder d));
                ("disabled", opt_bool (disabled d));
                ("onChange", AOwn OwnChange);
                ("onClick", opt_callback (handleClick d));
                ("onKeyDown", opt_callback (handleKeyDown d));
                ("onBlur", AOwn OwnBlur);
                ("readOnly", opt_bool (readOnly d));
                ("required", ABool (required p || false));
                ("rows", opt_num (rows d));
                ("cols", opt_num (cols d));
                ("maxLength", opt_num (maxLength d))]
               [];
             cond (negb (isValid s))
               (Element "div" []
                  [ Element "p"
                      [("className",
                        AStr (lit "text-red-500 absolute "
                              ++ (if negb (truthy (label p))
                                  then lit "-top-[14px]" else lit "top-3")
                              ++ lit " italic text-[11px] right-0"))]
                      [Text (errorMessage s)] ]);
             cond (num_truthy (maxLength d))
               (Element "span"
                  [("className",
                    AStr (lit "flex text-gray-400 pl-3 text-xs border-l-2 absolute bottom-3 right-2 text-right justify-end"))]
                  [ Number (characterCount s); Text (lit "/");
                    from_option Number Nothing (maxLength d) ]) ]);
      cond (negb (isEditing p))
        (Element "p"
           [("className",
             AStr (lit "text-left font-bold text-base mb-2 "
                   ++ tpl_and (negb (truthy (value p)))
                        (lit "!text-gray-400")))]
           [Text (or_else (value p) (lit "No Data"))]) ].

(** The rendered tree of an instance. *)
Definition view (d : Display) (i : Instance) : Node :=
  render (props i) d (state i).

End InputAreaView.

Module InputFieldView.
Import View InputField.

Record Display : Type := {
  id : option jsstring;
  placeholder : option jsstring;
  disabled : option bool;
  handleClick : option nat;
  readOnly : option bool;
  maxLength : option nat;
  additionalClass : option jsstring;
  accept : option jsstring;
  hideLabel : option bool;
  handleKeyDown : option nat
}.

(** Falsy values: no value, the empty string, and the numbers that print
    as [0] or [NaN] (zero, minus zero, not-a-number). *)
Definition value_truthy (v : Value) : bool :=
  match v with
  | ValUndefined => false
  | ValString s => truthy s
  | ValNumber text =>
      negb (bool_decide (text = lit "0") || bool_decide (text = lit "NaN"))
  end.

(** [value={value}] *)
Definition value_attr (v : Value) : Attr :=
  match v with
  | ValUndefined => AUndefined
  | ValString s => AStr s
  | ValNumber text => ANumberText text
  end.

(** [{value || "No Data"}]; a number is shown as its text. *)
Definition value_or_no_data (v : Value) : Node :=
  if value_truthy v
  then Text (default [] (toString v))
  else Text (lit "No Data").

(** The [return] of [InputField]. *)
Definition render (p : Props) (d : Display) (s : State) : Node :=
  Element "div" [("className", AStr (lit "relative"))]
    [ (if truthy (label p)
       then cond (negb (default false (hideLabel d)))
              (Element "p"
                 [("className",
                   AStr (lit "text-left font-semibold text-sm "
                         ++ tpl_and (isEditing p) (lit "!mb-2") ++ lit " "
                         ++ tpl_opt_and (disabled d) (lit "!text-gray-400")))]
                 [ Text (label p);
                   cond (required p)
                     (cond (isEditing p)
                        (Element "span"
                           [("className", AStr (lit "text-red-500"))]
                           [Text (lit " *")])) ])
       else Text (label p));
      cond (isEditing p)
        (Fragment
           [ Element "input"
               [("className",
                 AStr (tpl_opt (additionalClass d)
                       ++ lit " w-full form-input "
                       ++ tpl_and (negb (isValid s)) (lit "border-red-500")
                       ++ lit " "
                       ++ tpl_num_and (maxLength d) (lit "pr-16")
                       ++ lit " disabled:text-gray-400 disabled:placeholder:text-gray-300"));
                ("id", opt_str (id d));
                ("type", AStr (lit (kind_name (type p))));
                ("value", value_attr (value p));
                ("placeholder", opt_str (placeholder d));
                ("disabled", opt_bool (disabled d));
                ("onChange", AOwn OwnChange);
                ("onKeyDown", opt_callback (handleKeyDown d));
                ("onClick", opt_callback (handleClick d));
                ("onBlur", AOwn OwnBlur);
                ("readOnly", opt_bool (readOnly d));
                ("required", ABool (required p || false));
                ("accept", opt_str (accept d));
                ("maxLength", opt_num (maxLength d))]
               [];
             cond (negb (isValid s))
               (Element "div" [("className", AStr [])]
                  [ Element "p"
                      [("className",
                        AStr (lit "text-red-500 "
                              ++ tpl_and
                                   (negb (bool_decide (type p = password))
                                    && negb (bool_decide
                                               (type p = passwordVisible)))
                                   (lit "absolute")
                              ++ lit " top-2.5 right-0 text-[11px] text-right mt-0.5 italic"))]
                      [Text (errorMessage s)] ]);
             cond (negb (default false (disabled d)))
               (cond (num_truthy (maxLength d))
                  (Element "span"
                     [("className",
                       AStr (lit "flex text-gray-400 border-l-2 pl-3 text-xs absolute top-10 right-2 text-right justify-end"))]
                     [ Number (characterCount s); Text (lit "/");
                       from_option Number Nothing (maxLength d) ])) ]);
      cond (negb (isEditing p))
        (Element "p"
           [("className",
             AStr (lit "text-left font-bold text-base mb-2 "
                   ++ tpl_and (negb (value_truthy (value p)))
                        (lit "!text-gray-400")))]
           [value_or_no_data (value p)]) ].

Definition view (d : Display) (i : Instance) : Node :=
  render (props i) d (state i).

End InputFieldView.

(** ** The stories: a caller that owns the value *)

Module InputAreaStory.
Import InputArea.

(** The [args] of the [Default] story that only reach the tree. *)
Definition display : InputAreaView.Display :=
  {| InputAreaView.id := None;
     InputAreaView.placeholder := Some (lit "Enter a description");
     InputAreaView.disabled := None;
     InputAreaView.handleClick := None;
     InputAreaView.readOnly := None;
     InputAreaView.maxLength := Some 200%nat;
     InputAreaView.rows := None;
     InputAreaView.cols := None;
     InputAreaView.additionalLabelClass := None;
     InputAreaView.handleKeyDown := None |}.

(** [<InputArea {...args} value={value} onChange={handleChange} />] *)
Definition props_of (v : jsstring) : Props := with_value v Default.

(** The story holds the value ([useState("")]) and the field it
    renders. *)
Record Story : Type := { value : jsstring; field : Instance }.

Definition start : Story :=
  {| value := []; field := (mount (props_of [])).1 |}.

(** [handleChange]: every call of the change notifier sets the value to
    [e.target.value]; the last one stands. *)
Definition handleChange (calls : list Call) (v : jsstring) : jsstring :=
  foldl (λ _ w, w) v (change_calls calls).

(** What the user does to the control of the story. *)
Inductive UserEvent : Type :=
| Edit (v : jsstring)
| Leave.

Definition event_of (e : UserEvent) : Event :=
  match e with
  | Edit v => Change v
  | Leave => Blur
  end.

(** The field handles the event, the story takes the value the field
    proposed, and renders the field with it. *)
Definition step (st : Story) (e : UserEvent) : Story :=
  let '(i1, calls) := InputArea.step (field st) (event_of e) in
  let v := handleChange calls (value st) in
  let '(i2, _) := InputArea.step i1 (Render (props_of v)) in
  {| value := v; field := i2 |}.

Definition run (es : list UserEvent) : Story := foldl step start es.

End InputAreaStory.

Module InputFieldStory.
Import InputField.

Definition display : InputFieldView.Display :=
  {| InputFieldView.id := None;
     InputFieldView.placeholder := Some (lit "Enter your email");
     InputFieldView.disabled := None;
     InputFieldView.handleClick := None;
     InputFieldView.readOnly := None;
     InputFieldView.maxLength := Some 50%nat;
     InputFieldView.additionalClass := None;
     InputFieldView.accept := None;
     InputFieldView.hideLabel := None;
     InputFieldView.handleKeyDown := None |}.

(** [<InputField {...args} value={value} onChange={handleChange} />] *)
Definition props_of (v : jsstring) : Props := with_value (ValString v) Default.

Record Story : Type := { value : jsstring; field : Instance }.

Definition start : Story :=
  {| value := []; field := (mount (props_of [])).1 |}.

Definition handleChange (calls : list Call) (v : jsstring) : jsstring :=
  foldl (λ _ w, w) v (change_calls calls).

Inductive UserEvent : Type :=
| Edit (v : jsstring)
| Leave.

Definition event_of (e : UserEvent) : Event :=
  match e with
  | Edit v => Change v
  | Leave => Blur
  end.

Definition step (st : Story) (e : UserEvent) : Story :=
  let '(i1, calls) := InputField.step (field st) (event_of e) in
  let v := handleChange calls (value st) in
  let '(i2, _) := InputField.step i1 (Render (props_of v)) in
  {| value := v; field := i2 |}.

Definition run (es : list UserEvent) : Story := foldl step start es.

End InputFieldStory.

(** * Properties *)

(** ** Strings *)

Section Strings.

Lemma or_else_nil (s : jsstring) : or_else s [] = s.
Proof. by destruct s. Qed.

Lemma truthy_app_r (a b : jsstring) : truthy b = true → truthy (a ++ b) = true.
Proof. destruct a, b; simpl; done. Qed.

Lemma truthy_nil (s : jsstring) : truthy s = false ↔ s = [].
Proof. destruct s; simpl; split; done. Qed.

Lemma trim_start_nil (s : jsstring) :
  trim_start s = [] ↔ forallb is_white_space s = true.
Proof.
  induction s as [| c s IH]; simpl; [done |].
  destruct (is_white_space c); simpl; [done |]. split; done.
Qed.

(** The trimmed form is empty exactly for strings of white space. *)
Lemma trim_nil (s : jsstring) :
  trim s = [] ↔ forallb is_white_space s = true.
Proof.
  unfold trim, trim_end. split.
  - intros H. apply (f_equal (@rev N)) in H. rewrite rev_involutive in H.
    simpl in H. apply trim_start_nil in H.
    rewrite forallb_forall in H. apply forallb_forall. intros c Hc.
    destruct (is_white_space c) eqn:Hws; [done |].
    assert (In c (trim_start s)) as Hin.
    { clear H. induction s as [| d s IH]; simpl in *; [done |].
      destruct Hc as [-> | Hc]; [by rewrite Hws; left |].
      destruct (is_white_space d); [by apply IH | by right]. }
    apply in_rev, H in Hin. congruence.
  - intros H. apply trim_start_nil in H. by rewrite H.
Qed.

End Strings.

Lemma changed_same {D} `{EqDecision D} (d : D) : changed (Some d) d = false.
Proof. unfold changed. by rewrite bool_decide_eq_true_2. Qed.

Lemma changed_Some {D} `{EqDecision D} (d e : D) :
  changed (Some d) e = negb (bool_decide (d = e)).
Proof. done. Qed.

(** ** Regular expressions *)

Section RegExp.

Lemma nullable_matches r : nullable r = true ↔ matches r [].
Proof.
  induction r as [| | n items | r1 IH1 r2 IH2 | r1 IH1 r2 IH2 | r IH
                  | r1 IH1 r2 IH2]; simpl.
  - split; [done | inversion 1].
  - split; [constructor | done].
  - split; [done | inversion 1].
  - rewrite andb_true_iff, IH1, IH2. split.
    + intros [H1 H2]. apply (matches_cat _ _ [] [] H1 H2).
    + inversion 1 as [| | ? ? s1 s2 H1 H2 | | | | |]; subst.
      match goal with
      | Heq : _ ++ _ = [] |- _ => apply app_eq_nil in Heq as [-> ->]
      end. done.
  - rewrite orb_true_iff, IH1, IH2. split.
    + intros [H | H]; [by apply matches_alt_l | by apply matches_alt_r].
    + inversion 1; subst; auto.
  - split; [constructor | done].
  - rewrite andb_true_iff, IH1, IH2. split.
    + intros [H1 H2]. by constructor.
    + inversion 1; subst; auto.
Qed.

(** A non-empty string of [Star r] starts with a non-empty string of
    [r]. *)
Lemma matches_star_cons r c s :
  matches (Star r) (c :: s) →
  ∃ s1 s2, s = s1 ++ s2 ∧ matches r (c :: s1) ∧ matches (Star r) s2.
Proof.
  intros H. remember (Star r) as q eqn:Hq. remember (c :: s) as w eqn:Hw.
  revert c s Hw.
  induction H as [| | | | | | r' s1 s2 H1 _ H2 IH2 |]; try discriminate.
  injection Hq as ->. intros c s Hw.
  destruct s1 as [| c1 s1]; simpl in Hw.
  - by apply IH2.
  - injection Hw as -> <-. by exists s1, s2.
Qed.

Lemma deriv_matches r : ∀ c s, matches (deriv c r) s ↔ matches r (c :: s).
Proof.
  induction r as [| | n items | r1 IH1 r2 IH2 | r1 IH1 r2 IH2 | r IH
                  | r1 IH1 r2 IH2]; intros c s; simpl.
  - split; inversion 1.
  - split; inversion 1.
  - destruct (class_mem n items c) eqn:Hc; split.
    + inversion 1; subst. by constructor.
    + inversion 1; subst. constructor.
    + inversion 1.
    + inversion 1; subst. congruence.
  - assert (matches (Cat (deriv c r1) r2) s →
            matches (Cat r1 r2) (c :: s)) as Hleft.
    { inversion 1 as [| | ? ? s1 s2 H1 H2 | | | | |]; subst.
      apply IH1 in H1. apply (matches_cat _ _ (c :: s1) s2 H1 H2). }
    assert (matches (Cat r1 r2) (c :: s) →
            matches (Cat (deriv c r1) r2) s
            ∨ (matches r1 [] ∧ matches r2 (c :: s))) as Hright.
    { intros H. remember (c :: s) as w eqn:Hw.
      inversion H as [| | ? ? s1 s2 H1 H2 | | | | |]; subst.
      match goal with Heq : _ ++ _ = _ :: _ |- _ => rename Heq into Hw end.
      destruct s1 as [| c1 s1]; simpl in Hw.
      - subst. by right.
      - injection Hw as -> <-. left. constructor; [by apply IH1 | done]. }
    destruct (nullable r1) eqn:Hn; split.
    + inversion 1; subst; [by apply Hleft |].
      apply (matches_cat _ _ [] (c :: s)); [by apply nullable_matches |].
      by apply IH2.
    + intros H. destruct (Hright H) as [H1 | [_ H2]].
      * by apply matches_alt_l.
      * apply matches_alt_r. by apply IH2.
    + apply Hleft.
    + intros H. destruct (Hright H) as [H1 | [H1 _]]; [done |].
      apply nullable_matches in H1. congruence.
  - split.
    + inversion 1; subst.
      * apply matches_alt_l. by apply IH1.
      * apply matches_alt_r. by apply IH2.
    + inversion 1; subst.
      * apply matches_alt_l. by apply IH1.
      * apply matches_alt_r. by apply IH2.
  - split.
    + inversion 1 as [| | ? ? s1 s2 H1 H2 | | | | |]; subst.
      apply IH in H1. apply (matches_star_app _ (c :: s1) s2 H1 H2).
    + intros H. apply matches_star_cons in H as (s1 & s2 & -> & H1 & H2).
      constructor; [by apply IH | done].
  - split.
    + inversion 1; subst. constructor; [by apply IH1 | by apply IH2].
    + inversion 1; subst. constructor; [by apply IH1 | by apply IH2].
Qed.

(** [test] decides membership in the language of the pattern. *)
Lemma test_matches r s : test r s = true ↔ matches r s.
Proof.
  unfold test. revert r.
  induction s as [| c s IH]; intros r; simpl.
  - apply nullable_matches.
  - rewrite IH. apply deriv_matches.
Qed.

End RegExp.

(** ** Button *)

Section ButtonFacts.
Import Button.

Lemma Button_lookup (props : gmap string PropValue) (k : string) :
  attributes (Button props) !! k =
    match props !! k with
    | Some v => Some v
    | None =>
        if decide (k = "className") then Some (Str (lit "text-amber-300"))
        else None
    end.
Proof.
  unfold Button, spread. simpl. rewrite lookup_union, lookup_singleton.
  destruct (props !! k); simpl; repeat case_decide; done || congruence.
Qed.

Lemma Button_has_class (props : gmap string PropValue) :
  has_class (lit "text-amber-300") (Button props) =
    match props !! "className" with
    | None => true
    | Some (Str s) => bool_decide (lit "text-amber-300" ∈ class_tokens s)
    | Some _ => false
    end.
Proof.
  unfold has_class. rewrite Button_lookup.
  destruct (props !! "className") as [v |]; [done |].
  rewrite decide_True by done. by vm_compute.
Qed.

End ButtonFacts.

(** ** InputArea *)

Section InputAreaFacts.
Import InputArea.

Lemma area_rule_of (k : Kind) :
  rule_of k =
    Some {| regex := resourceDescriptionRegex;
            message := lit "Only Alphabets, numbers, and (#, _, -, .) allowed!" |}.
Proof. by destruct k. Qed.

Lemma area_report p b s : report p b s = (tt, s, reported p b).
Proof. unfold report, reported. by destruct (bool_decide _). Qed.

(** Unfold the sequencing of updates down to the state and the calls. *)
Ltac step_update :=
  cbv [mbind update_bind mret update_ret bind ret skip when emit set exec
       setIsValid setErrorMessage setCharacterCount].

Ltac run_update :=
  step_update; rewrite ?area_report; step_update;
  rewrite ?app_nil_r; simpl app.

(** The three outcomes of [validateInput], by the branch taken. *)
Lemma area_validate_required p v s :
  truthy (trim v) = false → required p = true →
  validateInput p v s =
    (false,
     {| isValid := false; errorMessage := lit "Field is required.";
        characterCount := characterCount s |},
     reported p false).
Proof.
  intros Hv Hr. unfold validateInput. rewrite Hv, Hr. simpl.
  by run_update.
Qed.

Lemma area_validate_rejected p v s :
  truthy (trim v) = true → test resourceDescriptionRegex v = false →
  validateInput p v s =
    (false,
     {| isValid := false;
        errorMessage := lit "Only Alphabets, numbers, and (#, _, -, .) allowed!";
        characterCount := characterCount s |},
     reported p false).
Proof.
  intros Hv Ht. unfold validateInput. rewrite Hv, area_rule_of. simpl.
  rewrite Ht. simpl.
  by run_update.
Qed.

Lemma area_validate_accepted p v s :
  (truthy (trim v) = false → required p = false) →
  (truthy (trim v) = true → test resourceDescriptionRegex v = true) →
  validateInput p v s =
    (true,
     {| isValid := true; errorMessage := [];
        characterCount := characterCount s |},
     reported p true).
Proof.
  intros Hr Ht. unfold validateInput. rewrite area_rule_of. simpl.
  destruct (truthy (trim v)); simpl.
  - rewrite Ht by done. simpl.
    by run_update.
  - rewrite Hr by done. simpl.
    by run_update.
Qed.

Lemma area_change_calls_reported p b : change_calls (reported p b) = [].
Proof. unfold reported. by destruct (bool_decide _). Qed.

Lemma area_validation_calls_reported p b :
  is_Some (onValidationChange p) →
  validation_calls (reported p b) = [b].
Proof. intros H. unfold reported. by rewrite bool_decide_eq_true_2. Qed.

Lemma area_change_calls_app c1 c2 :
  change_calls (c1 ++ c2) = change_calls c1 ++ change_calls c2.
Proof. apply omap_app. Qed.

(** Effects never touch the verdict and never call the change
    notifier. *)
Lemma area_effects_spec prev p s q :
  ∃ n c, effects prev p s q =
           (tt, {| isValid := isValid q; errorMessage := errorMessage q;
                   characterCount := n |}, c)
         ∧ change_calls c = []
         ∧ (c = [] ∨ c = reported p (isValid s)).
Proof.
  unfold effects, effect_isValid, effect_value, setCharacterCount, set, when.
  destruct q as [iv em cc].
  do 2 destruct (changed _ _); run_update;
    eexists _, _; (split; [reflexivity |]);
    rewrite ?area_change_calls_reported; auto.
Qed.

Lemma area_commit_verdict prev p s :
  isValid (commit prev p s).1 = isValid s
  ∧ errorMessage (commit prev p s).1 = errorMessage s
  ∧ change_calls (commit prev p s).2 = [].
Proof.
  unfold commit, exec.
  destruct (area_effects_spec prev p s s) as (n1 & c1 & -> & H1 & _).
  destruct (area_effects_spec (Some (p, s)) p
              {| isValid := isValid s; errorMessage := errorMessage s;
                 characterCount := n1 |}
              {| isValid := isValid s; errorMessage := errorMessage s;
                 characterCount := n1 |}) as (n2 & c2 & -> & H2 & _).
  simpl. by rewrite area_change_calls_app, H1, H2.
Qed.

Lemma area_validate_cases p v s :
  ∃ ok msg,
    validateInput p v s =
      (ok, {| isValid := ok; errorMessage := msg;
              characterCount := characterCount s |}, reported p ok)
    ∧ (truthy msg = negb ok)
    ∧ (ok = false ↔
         (truthy (trim v) = false ∧ required p = true)
         ∨ (truthy (trim v) = true ∧ test resourceDescriptionRegex v = false)).
Proof.
  destruct (truthy (trim v)) eqn:Hv.
  - destruct (test resourceDescriptionRegex v) eqn:Ht.
    + exists true, []. rewrite area_validate_accepted by (done || congruence).
      repeat split; try done. intros [[? _]|[_ ?]]; done.
    + eexists false, _. rewrite area_validate_rejected by done.
      repeat split; auto.
  - destruct (required p) eqn:Hr.
    + eexists false, _. rewrite area_validate_required by done.
      repeat split; auto.
    + exists true, []. rewrite area_validate_accepted by (done || congruence).
      repeat split; try done. intros [[_ ?]|[? _]]; done.
Qed.

Lemma area_onChange_eq p v s ok s' c :
  validateInput p v s = (ok, s', c) →
  textarea_onChange p v s =
    (tt, s',
     (if bool_decide (length v = 0%nat) then [OnChange v] else [])
     ++ c ++ (if ok then [OnChange v] else [])).
Proof.
  intros H. unfold textarea_onChange.
  destruct (bool_decide _); step_update; rewrite H; destruct ok;
    step_update; simpl; by rewrite ?app_nil_r.
Qed.

(** What one change event hands to the change notifier. *)
Lemma area_change_step i v :
  isEditing (props i) = true →
  ∃ ok,
    (validateInput (props i) v (state i)).1.1 = ok
    ∧ isValid (state (step i (Change v)).1) = ok
    ∧ change_calls (step i (Change v)).2 =
        (if bool_decide (length v = 0%nat) then [v] else [])
        ++ (if ok then [v] else []).
Proof.
  intros He. unfold step. rewrite He. unfold handle.
  destruct (area_validate_cases (props i) v (state i))
    as (ok & msg & Hval & _ & _).
  exists ok. rewrite Hval. split; [done |].
  unfold exec. rewrite (area_onChange_eq _ _ _ _ _ _ Hval).
  set (s1 := {| isValid := ok; errorMessage := msg;
                characterCount := characterCount (state i) |}).
  destruct (area_commit_verdict (Some (props i, state i)) (props i) s1)
    as (Hv & _ & Hc).
  destruct (commit _ _ s1) as [s2 c2]. simpl in *.
  split; [done |].
  rewrite !area_change_calls_app, Hc, area_change_calls_reported.
  destruct (bool_decide _), ok; by simpl.
Qed.

(** The regex rule, once the required check has passed. *)
Lemma area_rule_validation p s v r :
  rule_of (type p) = Some r →
  ((required p = true → truthy (trim v) = true) →
   test (regex r) v = true →
     isValid (exec (validateInput p v) s).1 = true
     ∧ errorMessage (exec (validateInput p v) s).1 = [])
  ∧ (truthy (trim v) = true → test (regex r) v = false →
     isValid (exec (validateInput p v) s).1 = false
     ∧ errorMessage (exec (validateInput p v) s).1 = message r).
Proof.
  rewrite area_rule_of. intros [= <-]. simpl. split.
  - intros Hreq Ht. unfold exec. rewrite area_validate_accepted; [done | | done].
    intros Hv. destruct (required p); [| done]. by rewrite Hreq in Hv.
  - intros Hv Ht. unfold exec. by rewrite area_validate_rejected.
Qed.

(** The required check comes first. *)
Lemma area_required_validation p s v :
  required p = true → trim v = [] →
  (validateInput p v s).1.1 = false
  ∧ isValid (exec (validateInput p v) s).1 = false
  ∧ errorMessage (exec (validateInput p v) s).1 = lit "Field is required.".
Proof.
  intros Hr Hv. unfold exec. rewrite area_validate_required; [done | | done].
  by rewrite Hv.
Qed.

Lemma area_handleBlur_eq p s ok s' c :
  validateInput p (value p) s = (ok, s', c) →
  handleBlur p s = (tt, s', c).
Proof.
  intros H. unfold handleBlur. step_update. rewrite H.
  by rewrite app_nil_r.
Qed.

Lemma area_effects_eq prev p s q :
  effects prev p s q =
    (tt,
     (if changed ((λ r, value r.1) <$> prev) (value p)
      then {| isValid := isValid q; errorMessage := errorMessage q;
              characterCount := length (value p) |}
      else q),
     if changed ((λ r, (isValid r.2, onValidationChange r.1)) <$> prev)
                (isValid s, onValidationChange p)
     then reported p (isValid s) else []).
Proof.
  unfold effects, effect_isValid, effect_value.
  do 2 destruct (changed _ _); run_update; reflexivity.
Qed.

(** The commit that follows a handler: the validity is reported when it
    has changed. *)
Lemma area_commit_same p s s1 :
  (commit (Some (p, s)) p s1).2 =
    if bool_decide (isValid s = isValid s1) then []
    else reported p (isValid s1).
Proof.
  unfold commit, exec. rewrite area_effects_eq. simpl fmap.
  rewrite changed_same. simpl. rewrite area_effects_eq. simpl fmap.
  rewrite !changed_same, app_nil_r. simpl.
  destruct (decide (isValid s = isValid s1)) as [Heq | Hne].
  - rewrite Heq. by rewrite !bool_decide_eq_true_2.
  - rewrite !bool_decide_eq_false_2; [done | done |]. congruence.
Qed.

(** The second pass of a commit queues no state: no third render. *)
Lemma area_commit_settles p s s1 :
  (exec (effects (Some (p, s)) p s1) s1).1 = s1.
Proof.
  unfold exec. rewrite area_effects_eq. simpl fmap.
  by rewrite changed_same.
Qed.

(** The mount of InputArea reports the initial validity once. *)
Lemma area_mount_reports p :
  (mount p).2 = reported p true ∧ isValid (state (mount p).1) = true.
Proof.
  unfold mount, commit, exec. rewrite area_effects_eq. simpl.
  rewrite area_effects_eq. simpl fmap. rewrite !changed_same.
  by rewrite app_nil_r.
Qed.

Lemma area_validation_calls_app c1 c2 :
  validation_calls (c1 ++ c2) = validation_calls c1 ++ validation_calls c2.
Proof. apply omap_app. Qed.

(** A focus loss of InputArea: the notifier hears the new validity, and
    hears it again when the validity has changed. *)
Lemma area_blur_reports i :
  isEditing (props i) = true →
  is_Some (onValidationChange (props i)) →
  validation_calls (step i Blur).2 =
    isValid (state (step i Blur).1)
    :: (if bool_decide (isValid (state i) = isValid (state (step i Blur).1))
        then [] else [isValid (state (step i Blur).1)]).
Proof.
  intros He Hn. unfold step. rewrite He. unfold handle, exec.
  destruct (area_validate_cases (props i) (value (props i)) (state i))
    as (ok & msg & Hval & _ & _).
  rewrite (area_handleBlur_eq _ _ _ _ _ Hval).
  set (s1 := {| isValid := ok; errorMessage := msg;
                characterCount := characterCount (state i) |}).
  pose proof (area_commit_same (props i) (state i) s1) as Hc.
  destruct (area_commit_verdict (Some (props i, state i)) (props i) s1)
    as (Hv & _ & _).
  destruct (commit _ _ s1) as [s2 c2]. simpl in *. subst c2.
  rewrite Hv, area_validation_calls_app, area_validation_calls_reported by done.
  destruct (bool_decide _); simpl; [done |].
  by rewrite area_validation_calls_reported.
Qed.

Lemma area_invariant_of_verdict (ok : bool) (msg : jsstring) n :
  truthy msg = negb ok →
  invariant {| isValid := ok; errorMessage := msg; characterCount := n |}.
Proof.
  unfold invariant. simpl. destruct ok, msg; simpl; intros; split; done.
Qed.

Lemma area_invariant_transfer s q :
  isValid q = isValid s → errorMessage q = errorMessage s →
  invariant s → invariant q.
Proof. unfold invariant. by intros -> ->. Qed.

Lemma area_handle_invariant i m ok msg c :
  m (state i) =
    (tt, {| isValid := ok; errorMessage := msg;
            characterCount := characterCount (state i) |}, c) →
  truthy msg = negb ok →
  invariant (state (handle i m).1).
Proof.
  intros Hm Hmsg. unfold handle, exec. rewrite Hm.
  set (s1 := {| isValid := ok; errorMessage := msg;
                characterCount := characterCount (state i) |}).
  destruct (area_commit_verdict (Some (props i, state i)) (props i) s1)
    as (Hv & He & _).
  destruct (commit _ _ s1) as [s2 c2]. simpl in *.
  apply (area_invariant_transfer s1); [exact Hv | exact He |].
  by apply area_invariant_of_verdict.
Qed.

Lemma area_step_invariant i e :
  invariant (state i) → invariant (state (step i e).1).
Proof.
  intros Hi. destruct e as [v | | p]; unfold step.
  - destruct (isEditing (props i)); [| done].
    destruct (area_validate_cases (props i) v (state i))
      as (ok & msg & Hval & Hmsg & _).
    eapply area_handle_invariant; [| exact Hmsg].
    by rewrite (area_onChange_eq _ _ _ _ _ _ Hval).
  - destruct (isEditing (props i)); [| done].
    destruct (area_validate_cases (props i) (value (props i)) (state i))
      as (ok & msg & Hval & Hmsg & _).
    eapply area_handle_invariant; [| exact Hmsg].
    by rewrite (area_handleBlur_eq _ _ _ _ _ Hval).
  - destruct (area_commit_verdict (Some (props i, state i)) p (state i))
      as (Hv & He & _).
    destruct (commit _ p (state i)) as [s2 c2]. simpl in *.
    by eapply area_invariant_transfer.
Qed.

Lemma area_steps_invariant es : ∀ i,
  invariant (state i) → invariant (state (steps i es).1).
Proof.
  induction es as [| e es IH]; intros i Hi; simpl; [done |].
  pose proof (area_step_invariant i e Hi) as H1.
  destruct (step i e) as [i1 c1]. simpl in H1.
  specialize (IH i1 H1). by destruct (steps i1 es).
Qed.

Lemma area_mount_invariant p : invariant (state (mount p).1).
Proof.
  unfold mount.
  destruct (area_commit_verdict None p (initial p)) as (Hv & He & _).
  destruct (commit None p (initial p)) as [s c]. simpl in *.
  apply (area_invariant_transfer (initial p)); [exact Hv | exact He |].
  by split.
Qed.

Lemma area_run_invariant p es : invariant (state (run p es).1).
Proof.
  unfold run. pose proof (area_mount_invariant p) as H0.
  destruct (mount p) as [i0 c0]. simpl in H0.
  pose proof (area_steps_invariant es i0 H0) as H1.
  by destruct (steps i0 es).
Qed.

End InputAreaFacts.

(** ** InputField *)

Section InputFieldFacts.
Import InputField.

Lemma field_rule_of (k : Kind) :
  rule_of k =
    match k with
    | alphabets =>
        Some {| regex := alphabetsRegex;
                message := lit "Only Alphabets allowed!" |}
    | resource_name =>
        Some {| regex := resourceNameRegex;
                message := lit "Only Alphabets, numbers and (#, _, -) allowed!" |}
    | email =>
        Some {| regex := emailRegex; message := lit "Invalid email format." |}
    | password | passwordVisible =>
        Some {| regex := passwordRegex; message := passwordMessage |}
    | file | number => None
    end.
Proof. by destruct k. Qed.

Lemma field_report p b s : report p b s = (tt, s, reported p b).
Proof. unfold report, reported. by destruct (bool_decide _). Qed.

Ltac step_update :=
  cbv [mbind update_bind mret update_ret bind ret skip when emit set exec
       setIsValid setErrorMessage setCharacterCount].

Ltac run_update :=
  step_update; rewrite ?field_report; step_update;
  rewrite ?app_nil_r; simpl app.

(** The three outcomes of [validateInput], by the branch taken; the
    report carries [isValid] of the render the handler closed over. *)
Lemma field_validate_required p snap s :
  blank (value p) = true → required p = true →
  validateInput p snap s =
    (tt,
     {| isValid := false; errorMessage := label p ++ lit " is required.";
        characterCount := characterCount s |},
     reported p (isValid snap)).
Proof.
  intros Hv Hr. unfold validateInput. rewrite Hv, Hr. simpl andb. cbv iota.
  by run_update.
Qed.

Lemma field_validate_rejected p snap s r :
  blank (value p) && required p = false →
  rule_of (type p) = Some r →
  rule_rejects (Some r) (value p) = true →
  validateInput p snap s =
    (tt,
     {| isValid := false; errorMessage := message r;
        characterCount := characterCount s |},
     reported p (isValid snap)).
Proof.
  intros Hv Hr Hj. unfold validateInput. rewrite Hv, Hr, Hj. cbv iota.
  by run_update.
Qed.

Lemma field_validate_accepted p snap s :
  blank (value p) && required p = false →
  rule_rejects (rule_of (type p)) (value p) = false →
  validateInput p snap s =
    (tt,
     {| isValid := true; errorMessage := [];
        characterCount := characterCount s |},
     reported p (isValid snap)).
Proof.
  intros Hv Hj. unfold validateInput. rewrite Hv, Hj. cbv iota.
  by run_update.
Qed.

Lemma field_change_calls_reported p b : change_calls (reported p b) = [].
Proof. unfold reported. by destruct (bool_decide _). Qed.

Lemma field_validation_calls_reported p b :
  is_Some (onValidationChange p) → validation_calls (reported p b) = [b].
Proof. intros H. unfold reported. by rewrite bool_decide_eq_true_2. Qed.

(** The effects of one render: the external error forces the verdict when
    its flag has just become set, the validity is reported when it has
    just changed, the character count follows the value. *)
Lemma field_effects_eq prev p s q :
  effects prev p s q =
    (tt,
     (let q1 :=
        if changed ((λ r, error_flag r.1) <$> prev) (error_flag p)
           && bool_decide (error_flag p = Some true)
        then {| isValid := false;
                errorMessage := from_option error_message [] (errorObject p);
                characterCount := characterCount q |}
        else q in
      if changed ((λ r, value r.1) <$> prev) (value p)
      then {| isValid := isValid q1; errorMessage := errorMessage q1;
              characterCount :=
                from_option length 0%nat (toString (value p)) |}
      else q1),
     if changed ((λ r, isValid r.2) <$> prev) (isValid s)
     then reported p (isValid s) else []).
Proof.
  unfold effects, effect_errorObject, effect_isValid, effect_value.
  rewrite or_else_nil.
  do 3 destruct (changed _ _);
    try destruct (bool_decide (error_flag p = Some true));
    run_update; reflexivity.
Qed.

(** A commit: the verdict after it and the reports made during it. *)
Lemma field_commit_eq prev p s :
  let forced :=
    changed ((λ r, error_flag r.1) <$> prev) (error_flag p)
    && bool_decide (error_flag p = Some true) in
  isValid (commit prev p s).1 = (if forced then false else isValid s)
  ∧ errorMessage (commit prev p s).1 =
      (if forced then from_option error_message [] (errorObject p)
       else errorMessage s)
  ∧ (commit prev p s).2 =
      (if changed ((λ r, isValid r.2) <$> prev) (isValid s)
       then reported p (isValid s) else [])
      ++ (if forced && isValid s then reported p false else []).
Proof.
  unfold commit, exec. rewrite field_effects_eq.
  cbv zeta. rewrite field_effects_eq. simpl fmap.
  rewrite !changed_same. simpl andb. cbv iota.
  destruct (changed _ (error_flag p) && _); simpl.
  - destruct (changed _ (value p)); simpl;
      destruct (isValid s); simpl; by rewrite ?app_nil_r.
  - destruct (changed _ (value p)); simpl;
      rewrite bool_decide_eq_true_2 by done; simpl;
      by rewrite ?app_nil_r.
Qed.

Lemma field_commit_same p s s1 :
  isValid (commit (Some (p, s)) p s1).1 = isValid s1
  ∧ errorMessage (commit (Some (p, s)) p s1).1 = errorMessage s1
  ∧ (commit (Some (p, s)) p s1).2 =
      if bool_decide (isValid s = isValid s1) then []
      else reported p (isValid s1).
Proof.
  destruct (field_commit_eq (Some (p, s)) p s1) as (Hv & He & Hc).
  simpl fmap in *. rewrite changed_same in *. simpl in *.
  rewrite Hv, He, Hc, app_nil_r. repeat split.
  by destruct (bool_decide _).
Qed.

Lemma field_rule_message k r : rule_of k = Some r → truthy (message r) = true.
Proof.
  rewrite field_rule_of. destruct k; intros [= <-]; reflexivity.
Qed.

Lemma field_validate_cases p snap s :
  ∃ ok msg,
    validateInput p snap s =
      (tt, {| isValid := ok; errorMessage := msg;
              characterCount := characterCount s |},
       reported p (isValid snap))
    ∧ truthy msg = negb ok.
Proof.
  destruct (blank (value p) && required p) eqn:Hreq.
  - apply andb_true_iff in Hreq as [Hb Hr].
    eexists false, _. rewrite field_validate_required by done.
    split; [done |]. by apply truthy_app_r.
  - destruct (rule_rejects (rule_of (type p)) (value p)) eqn:Hrej.
    + destruct (rule_of (type p)) as [r |] eqn:Hrule; [| done].
      eexists false, _.
      rewrite (field_validate_rejected _ _ _ r) by done.
      split; [done |]. by eapply field_rule_message.
    + exists true, []. by rewrite field_validate_accepted.
Qed.

Lemma field_input_onChange_eq p v s :
  input_onChange p v s = (tt, s, [OnChange v]).
Proof. unfold input_onChange. by destruct (_ && _). Qed.

Lemma field_handleBlur_range p snap s :
  usedFor p = Some (lit "range") →
  handleBlur p snap s =
    (tt, s, if bool_decide (is_Some (handleFocusOut p))
            then [HandleFocusOut] else []).
Proof.
  intros H. unfold handleBlur. rewrite bool_decide_eq_true_2 by done.
  by destruct (bool_decide _).
Qed.

Lemma field_handleBlur_validate p snap s :
  usedFor p ≠ Some (lit "range") →
  handleBlur p snap s = validateInput p snap s.
Proof.
  intros H. unfold handleBlur. by rewrite bool_decide_eq_false_2.
Qed.

Lemma field_invariant_of_verdict (ok : bool) (msg : jsstring) n :
  truthy msg = negb ok →
  invariant {| isValid := ok; errorMessage := msg; characterCount := n |}.
Proof.
  unfold invariant. simpl. destruct ok, msg; simpl; intros; split; done.
Qed.

Lemma field_invariant_transfer s q :
  isValid q = isValid s → errorMessage q = errorMessage s →
  invariant s → invariant q.
Proof. unfold invariant. by intros -> ->. Qed.

Lemma field_handle_invariant i m s1 c :
  m (state i) = (tt, s1, c) → invariant s1 →
  invariant (state (handle i m).1).
Proof.
  intros Hm Hs1. unfold handle, exec. rewrite Hm.
  destruct (field_commit_same (props i) (state i) s1) as (Hv & He & _).
  destruct (commit _ _ s1) as [s2 c2]. simpl in *.
  by apply (field_invariant_transfer s1).
Qed.

Lemma field_commit_invariant prev p s :
  error_has_message p → invariant s → invariant (commit prev p s).1.
Proof.
  intros Hp Hs.
  destruct (field_commit_eq prev p s) as (Hv & He & _). cbv zeta in *.
  destruct (changed _ (error_flag p) && _) eqn:Hforced.
  - apply andb_true_iff in Hforced as [_ Hflag].
    apply bool_decide_eq_true_1 in Hflag. unfold error_flag in Hflag.
    destruct (errorObject p) as [o |] eqn:Ho; [| done].
    injection Hflag as Hflag. specialize (Hp o Ho Hflag).
    unfold invariant. rewrite Hv, He. simpl. by split.
  - by apply (field_invariant_transfer s).
Qed.

Lemma field_step_invariant i e :
  event_has_message e →
  invariant (state i) → invariant (state (step i e).1).
Proof.
  intros He Hi. destruct e as [v | | p]; unfold step.
  - destruct (isEditing (props i)); [| done].
    eapply field_handle_invariant; [apply field_input_onChange_eq | done].
  - destruct (isEditing (props i)); [| done].
    destruct (decide (usedFor (props i) = Some (lit "range"))) as [Hr | Hr].
    + eapply field_handle_invariant;
        [by apply field_handleBlur_range | done].
    + destruct (field_validate_cases (props i) (state i) (state i))
        as (ok & msg & Hval & Hmsg).
      eapply field_handle_invariant.
      * rewrite field_handleBlur_validate by done. exact Hval.
      * by apply field_invariant_of_verdict.
  - pose proof (field_commit_invariant (Some (props i, state i)) p
                  (state i) He Hi) as H.
    by destruct (commit _ p (state i)).
Qed.

Lemma field_steps_invariant es : ∀ i,
  Forall event_has_message es →
  invariant (state i) → invariant (state (steps i es).1).
Proof.
  induction es as [| e es IH]; intros i Hes Hi; simpl; [done |].
  inversion Hes as [| ? ? He Hes']; subst.
  pose proof (field_step_invariant i e He Hi) as H1.
  destruct (step i e) as [i1 c1]. simpl in H1.
  specialize (IH i1 Hes' H1). by destruct (steps i1 es).
Qed.

Lemma field_mount_invariant p :
  error_has_message p → invariant (state (mount p).1).
Proof.
  intros Hp. unfold mount.
  assert (invariant (initial p)) as H0 by by split.
  pose proof (field_commit_invariant None p (initial p) Hp H0) as H.
  by destruct (commit None p (initial p)).
Qed.

Lemma field_run_invariant p es :
  error_has_message p → Forall event_has_message es →
  invariant (state (run p es).1).
Proof.
  intros Hp Hes. unfold run. pose proof (field_mount_invariant p Hp) as H0.
  destruct (mount p) as [i0 c0]. simpl in H0.
  pose proof (field_steps_invariant es i0 Hes H0) as H1.
  by destruct (steps i0 es).
Qed.

Lemma field_commit_idle p s : commit (Some (p, s)) p s = (s, []).
Proof.
  unfold commit, exec. rewrite field_effects_eq. simpl fmap.
  rewrite !changed_same. simpl. rewrite field_effects_eq. simpl fmap.
  by rewrite !changed_same.
Qed.

(** A change event of the input: the value goes to the caller once and
    nothing else happens. *)
Lemma field_change_step i v :
  isEditing (props i) = true → step i (Change v) = (i, [OnChange v]).
Proof.
  intros He. unfold step. rewrite He. unfold handle, exec.
  rewrite field_input_onChange_eq, field_commit_idle. by destruct i.
Qed.

(** A render with new props. *)
Lemma field_render_step i p :
  let forced :=
    negb (bool_decide (error_flag (props i) = error_flag p))
    && bool_decide (error_flag p = Some true) in
  props (step i (Render p)).1 = p
  ∧ isValid (state (step i (Render p)).1) =
      (if forced then false else isValid (state i))
  ∧ errorMessage (state (step i (Render p)).1) =
      (if forced then from_option error_message [] (errorObject p)
       else errorMessage (state i)).
Proof.
  unfold step.
  destruct (field_commit_eq (Some (props i, state i)) p (state i))
    as (Hv & He & _).
  simpl fmap in *. rewrite changed_Some in *. cbv zeta in *.
  by destruct (commit _ p (state i)).
Qed.

(** A focus loss that validates: the verdict is the one of
    [validateInput]; the notifier first hears the validity of the render
    the handler closed over, then, if the validity changed, the new one. *)
Lemma field_blur_step i :
  isEditing (props i) = true →
  usedFor (props i) ≠ Some (lit "range") →
  ∃ ok msg,
    (exec (validateInput (props i) (state i)) (state i)).1 =
      {| isValid := ok; errorMessage := msg;
         characterCount := characterCount (state i) |}
    ∧ truthy msg = negb ok
    ∧ props (step i Blur).1 = props i
    ∧ isValid (state (step i Blur).1) = ok
    ∧ errorMessage (state (step i Blur).1) = msg
    ∧ (step i Blur).2 =
        reported (props i) (isValid (state i))
        ++ (if bool_decide (isValid (state i) = ok) then []
            else reported (props i) ok).
Proof.
  intros He Hr. unfold step. rewrite He. unfold handle, exec.
  rewrite field_handleBlur_validate by done.
  destruct (field_validate_cases (props i) (state i) (state i))
    as (ok & msg & Hval & Hmsg).
  exists ok, msg. rewrite Hval.
  set (s1 := {| isValid := ok; errorMessage := msg;
                characterCount := characterCount (state i) |}).
  destruct (field_commit_same (props i) (state i) s1) as (Hv & Hm & Hc).
  destruct (commit _ _ s1) as [s2 c2]. simpl in *.
  by rewrite Hc.
Qed.

(** The regex rule of a kind, once the required check has passed. *)
Lemma field_rule_validation p snap s r text :
  rule_of (type p) = Some r →
  toString (value p) = Some text →
  (required p = true → truthy (trim text) = true) →
  (test (regex r) text = true →
     isValid (exec (validateInput p snap) s).1 = true
     ∧ errorMessage (exec (validateInput p snap) s).1 = [])
  ∧ (text ≠ [] → test (regex r) text = false →
     isValid (exec (validateInput p snap) s).1 = false
     ∧ errorMessage (exec (validateInput p snap) s).1 = message r).
Proof.
  intros Hrule Htext Hreq.
  assert (blank (value p) && required p = false) as Hb.
  { unfold blank. rewrite Htext.
    destruct (required p); [| by rewrite andb_false_r].
    by rewrite Hreq. }
  split.
  - intros Ht. unfold exec. rewrite field_validate_accepted; [done | done |].
    rewrite Hrule. unfold rule_rejects. rewrite Htext, Ht.
    by rewrite andb_false_r.
  - intros Hne Ht. unfold exec.
    rewrite (field_validate_rejected _ _ _ r); [done | done | done |].
    unfold rule_rejects. rewrite Htext, Ht.
    rewrite bool_decide_eq_true_2; [done |]. by destruct text.
Qed.

(** The required check comes first. *)
Lemma field_required_validation p snap s :
  required p = true →
  (∀ text, toString (value p) = Some text → trim text = []) →
  isValid (exec (validateInput p snap) s).1 = false
  ∧ errorMessage (exec (validateInput p snap) s).1 =
      label p ++ lit " is required.".
Proof.
  intros Hr Hv. unfold exec. rewrite field_validate_required; [done | | done].
  unfold blank. destruct (toString (value p)) as [text |]; [| done].
  by rewrite (Hv text eq_refl).
Qed.

(** The second pass of a commit queues no state: no third render. *)
Lemma field_commit_settles p s s1 :
  (exec (effects (Some (p, s)) p s1) s1).1 = s1.
Proof.
  unfold exec. rewrite field_effects_eq. simpl fmap.
  by rewrite !changed_same.
Qed.

(** The mount of InputField reports the initial validity once, and then
    the forced one when it is mounted with the external flag set. *)
Lemma field_mount_reports p :
  (mount p).2 =
    reported p true
    ++ (if bool_decide (error_flag p = Some true) then reported p false
        else []).
Proof.
  unfold mount.
  destruct (field_commit_eq None p (initial p)) as (_ & _ & Hc).
  simpl in Hc. rewrite andb_true_r in Hc.
  by destruct (commit None p (initial p)).
Qed.

Lemma field_validation_calls_app c1 c2 :
  validation_calls (c1 ++ c2) = validation_calls c1 ++ validation_calls c2.
Proof. apply omap_app. Qed.

(** A focus loss of InputField that validates: the notifier first hears
    the validity from before the validation, and hears the new one only
    when the validity has changed. *)
Lemma field_blur_reports i :
  isEditing (props i) = true →
  usedFor (props i) ≠ Some (lit "range") →
  is_Some (onValidationChange (props i)) →
  validation_calls (step i Blur).2 =
    isValid (state i)
    :: (if bool_decide (isValid (state i) = isValid (state (step i Blur).1))
        then [] else [isValid (state (step i Blur).1)]).
Proof.
  intros He Hr Hn.
  destruct (field_blur_step i He Hr) as (ok & msg & _ & _ & _ & Hv & _ & Hc).
  rewrite Hc, Hv, field_validation_calls_app,
    field_validation_calls_reported by done.
  destruct (bool_decide _); simpl; [done |].
  by rewrite field_validation_calls_reported.
Qed.

End InputFieldFacts.

(** * The validation-and-display contract *)

Section Invariant.

(** C1, amended.  In every state InputArea reaches, and in every state
    InputField reaches while each external error object supplied with its
    flag set carries a non-empty message, the error message is non-empty
    if and only if the field is invalid. *)
Theorem message_iff_invalid :
  (∀ p es,
     InputArea.invariant (InputArea.state (InputArea.run p es).1))
  ∧ (∀ p es,
       InputField.error_has_message p →
       Forall InputField.event_has_message es →
       InputField.invariant (InputField.state (InputField.run p es).1)).
Proof.
  split.
  - apply area_run_invariant.
  - apply field_run_invariant.
Qed.

Lemma message_iff_invalid_witness :
  InputArea.invariant
    (InputArea.state
       (InputArea.run InputArea.Default
          [InputArea.Change (lit "a!"); InputArea.Blur]).1)
  ∧ InputField.invariant
      (InputField.state
         (InputField.run InputField.Default
            [InputField.Blur;
             InputField.Render
               (InputField.with_errorObject
                  (Some (InputField.flagged (lit "Taken")))
                  InputField.Default)]).1).
Proof.
  split.
  - apply (proj1 message_iff_invalid).
  - apply (proj2 message_iff_invalid).
    + intros o Ho. discriminate Ho.
    + repeat constructor. intros o [= <-] _. discriminate.
Defined.

(** C1 fails as stated: InputField mounted with an external error object
    whose flag is set and whose message is empty is invalid with an empty
    error message. *)
Lemma message_iff_invalid_counterexample :
  InputField.isValid
    (InputField.state
       (InputField.run
          (InputField.with_errorObject (Some (InputField.flagged []))
             InputField.Default) []).1) = false
  ∧ InputField.errorMessage
      (InputField.state
         (InputField.run
            (InputField.with_errorObject (Some (InputField.flagged []))
               InputField.Default) []).1) = []
  ∧ ¬ InputField.invariant
        (InputField.state
           (InputField.run
              (InputField.with_errorObject (Some (InputField.flagged []))
                 InputField.Default) []).1).
Proof.
  split; [reflexivity |]. split; [reflexivity |].
  intros [_ H]. by apply H.
Qed.

End Invariant.

Section Rules.

(** C2, amended.  For every InputField kind with a rule and for the
    description kind of InputArea, when the required check does not fire
    (the field is not required, or the trimmed value is non-empty): a value
    that matches the kind's regex is valid with an empty message; a value
    that does not match is invalid with exactly the kind's message,
    provided it is non-empty (InputField) or non-empty once trimmed
    (InputArea).  The rules are those of the two tables. *)
Theorem rule_validation :
  (∀ p snap s r text,
     InputField.rule_of (InputField.type p) = Some r →
     InputField.toString (InputField.value p) = Some text →
     (InputField.required p = true → truthy (trim text) = true) →
     (test (InputField.regex r) text = true →
        InputField.isValid (exec (InputField.validateInput p snap) s).1 = true
        ∧ InputField.errorMessage
            (exec (InputField.validateInput p snap) s).1 = [])
     ∧ (text ≠ [] → test (InputField.regex r) text = false →
        InputField.isValid (exec (InputField.validateInput p snap) s).1 = false
        ∧ InputField.errorMessage
            (exec (InputField.validateInput p snap) s).1
          = InputField.message r))
  ∧ (∀ p s v r,
       InputArea.rule_of (InputArea.type p) = Some r →
       ((InputArea.required p = true → truthy (trim v) = true) →
        test (InputArea.regex r) v = true →
          InputArea.isValid (exec (InputArea.validateInput p v) s).1 = true
          ∧ InputArea.errorMessage
              (exec (InputArea.validateInput p v) s).1 = [])
       ∧ (truthy (trim v) = true → test (InputArea.regex r) v = false →
          InputArea.isValid (exec (InputArea.validateInput p v) s).1 = false
          ∧ InputArea.errorMessage
              (exec (InputArea.validateInput p v) s).1
            = InputArea.message r))
  ∧ (∀ k,
       InputField.rule_of k =
         match k with
         | InputField.alphabets =>
             Some {| InputField.regex := InputField.alphabetsRegex;
                     InputField.message := lit "Only Alphabets allowed!" |}
         | InputField.resource_name =>
             Some {| InputField.regex := InputField.resourceNameRegex;
                     InputField.message :=
                       lit "Only Alphabets, numbers and (#, _, -) allowed!" |}
         | InputField.email =>
             Some {| InputField.regex := InputField.emailRegex;
                     InputField.message := lit "Invalid email format." |}
         | InputField.password | InputField.passwordVisible =>
             Some {| InputField.regex := InputField.passwordRegex;
                     InputField.message := InputField.passwordMessage |}
         | InputField.file | InputField.number => None
         end)
  ∧ (∀ k,
       InputArea.rule_of k =
         Some {| InputArea.regex := InputArea.resourceDescriptionRegex;
                 InputArea.message :=
                   lit "Only Alphabets, numbers, and (#, _, -, .) allowed!" |}).
Proof.
  split; [| split; [| split]].
  - apply field_rule_validation.
  - apply area_rule_validation.
  - apply field_rule_of.
  - apply area_rule_of.
Qed.

Lemma rule_validation_witness :
  InputField.isValid
    (exec (InputField.validateInput
             (InputField.with_value (InputField.ValString (lit "a@b.com"))
                InputField.Default)
             (InputField.initial InputField.Default))
          (InputField.initial InputField.Default)).1 = true
  ∧ InputArea.errorMessage
      (exec (InputArea.validateInput InputArea.Default (lit "a!"))
            (InputArea.initial InputArea.Default)).1
    = lit "Only Alphabets, numbers, and (#, _, -, .) allowed!".
Proof.
  split.
  - pose proof (proj1 rule_validation
                  (InputField.with_value
                     (InputField.ValString (lit "a@b.com"))
                     InputField.Default)
                  (InputField.initial InputField.Default)
                  (InputField.initial InputField.Default)
                  {| InputField.regex := InputField.emailRegex;
                     InputField.message := lit "Invalid email format." |}
                  (lit "a@b.com")) as H.
    apply H; reflexivity.
  - pose proof (proj1 (proj2 rule_validation)
                  InputArea.Default
                  (InputArea.initial InputArea.Default)
                  (lit "a!")
                  {| InputArea.regex := InputArea.resourceDescriptionRegex;
                     InputArea.message :=
                       lit "Only Alphabets, numbers, and (#, _, -, .) allowed!" |})
      as H.
    apply H; reflexivity.
Defined.

(** C2 fails as stated.  InputArea, not required, value a single line
    feed: the value is non-empty and does not match the regex, yet it is
    valid.  InputField of kind resource_name, required, value a single
    space: the value matches the regex, yet it is invalid. *)
Lemma rule_validation_counterexample :
  (test InputArea.resourceDescriptionRegex [10] = false
   ∧ InputArea.isValid
       (exec (InputArea.validateInput
                (InputArea.with_required false InputArea.Default) [10])
             (InputArea.initial InputArea.Default)).1 = true)
  ∧ (test InputField.resourceNameRegex (lit " ") = true
     ∧ InputField.isValid
         (exec (InputField.validateInput
                  (InputField.with_value (InputField.ValString (lit " "))
                     (InputField.with_type InputField.resource_name
                        InputField.Default))
                  (InputField.initial InputField.Default))
               (InputField.initial InputField.Default)).1 = false).
Proof. repeat split; reflexivity. Qed.

(** The scenarios of the specification, for every label and every setting
    of [required]. *)
Example email_scenarios p snap s :
  InputField.type p = InputField.email →
  (InputField.value p = InputField.ValString (lit "a@b") →
     InputField.isValid (exec (InputField.validateInput p snap) s).1 = false
     ∧ InputField.errorMessage (exec (InputField.validateInput p snap) s).1
       = lit "Invalid email format.")
  ∧ (InputField.value p = InputField.ValString (lit "a@b.com") →
     InputField.isValid (exec (InputField.validateInput p snap) s).1 = true
     ∧ InputField.errorMessage (exec (InputField.validateInput p snap) s).1
       = []).
Proof.
  intros Hk.
  set (r := {| InputField.regex := InputField.emailRegex;
               InputField.message := lit "Invalid email format." |}).
  split; intros Hv.
  - destruct (field_rule_validation p snap s r (lit "a@b")) as [_ H];
      [by rewrite Hk | by rewrite Hv | done |].
    by apply H.
  - destruct (field_rule_validation p snap s r (lit "a@b.com")) as [H _];
      [by rewrite Hk | by rewrite Hv | done |].
    by apply H.
Qed.

Example password_scenarios p snap s :
  InputField.type p = InputField.password →
  (InputField.value p = InputField.ValString (lit "abcdefgh1") →
     InputField.isValid (exec (InputField.validateInput p snap) s).1 = false)
  ∧ (InputField.value p = InputField.ValString (lit "Abcdefg1!@") →
     InputField.isValid (exec (InputField.validateInput p snap) s).1 = true).
Proof.
  intros Hk.
  set (r := {| InputField.regex := InputField.passwordRegex;
               InputField.message := InputField.passwordMessage |}).
  split; intros Hv.
  - destruct (field_rule_validation p snap s r (lit "abcdefgh1")) as [_ H];
      [by rewrite Hk | by rewrite Hv | done |].
    by apply H.
  - destruct (field_rule_validation p snap s r (lit "Abcdefg1!@")) as [H _];
      [by rewrite Hk | by rewrite Hv | done |].
    by apply H.
Qed.

End Rules.

Section ChangePropagation.
Import InputArea.

(** C3.  A change event of InputArea whose new value is empty reaches the
    caller's change notifier; one whose new value is non-empty reaches it
    if and only if the value passes validation.  The validity after the
    event is the verdict on the new value, and the notifier is handed no
    other value. *)
Theorem area_change_propagation i v :
  isEditing (props i) = true →
  (v = [] → v ∈ change_calls (step i (Change v)).2)
  ∧ (v ≠ [] →
       (v ∈ change_calls (step i (Change v)).2
        ↔ (validateInput (props i) v (state i)).1.1 = true))
  ∧ isValid (state (step i (Change v)).1)
    = (validateInput (props i) v (state i)).1.1
  ∧ (∀ w, w ∈ change_calls (step i (Change v)).2 → w = v).
Proof.
  intros He. destruct (area_change_step i v He) as (ok & Hok & Hv & Hc).
  rewrite Hc, Hok, Hv. repeat split.
  - intros ->. simpl. apply list_elem_of_here.
  - destruct v; [done |]. simpl. destruct ok; [done |].
    intros Hin. by apply elem_of_nil in Hin.
  - destruct v; [done |]. intros ->. simpl. apply list_elem_of_here.
  - intros w Hin. apply elem_of_app in Hin as [Hin | Hin].
    + destruct (bool_decide _); [| by apply elem_of_nil in Hin].
      by apply list_elem_of_singleton in Hin.
    + destruct ok; [| by apply elem_of_nil in Hin].
      by apply list_elem_of_singleton in Hin.
Qed.

Lemma area_change_propagation_witness :
  (lit "ab" ∈ change_calls (step (mount Default).1 (Change (lit "ab"))).2)
  ∧ ([] ∈ change_calls (step (mount Default).1 (Change [])).2).
Proof.
  split.
  - destruct (area_change_propagation (mount Default).1 (lit "ab") eq_refl)
      as (_ & H & _).
    apply H; [discriminate | reflexivity].
  - destruct (area_change_propagation (mount Default).1 [] eq_refl)
      as (H & _).
    apply H. reflexivity.
Defined.

(** C10.  One change event of InputArea whose new value is empty calls the
    change notifier twice when the field is not required and once when it
    is required. *)
Theorem area_clear_notifies i :
  isEditing (props i) = true →
  change_calls (step i (Change [])).2 =
    if required (props i) then [[]] else [[]; []].
Proof.
  intros He. destruct (area_change_step i [] He) as (ok & Hok & _ & Hc).
  rewrite Hc. simpl.
  destruct (required (props i)) eqn:Hr.
  - destruct (area_required_validation (props i) (state i) [] Hr eq_refl)
      as (Hres & _).
    by rewrite <- Hok, Hres.
  - rewrite <- Hok, area_validate_accepted; [done | done |].
    intros Ht. discriminate Ht.
Qed.

Lemma area_clear_notifies_witness :
  change_calls (step (mount Default).1 (Change [])).2 = [[]]
  ∧ change_calls
      (step (mount (with_required false Default)).1 (Change [])).2
    = [[]; []].
Proof.
  split.
  - exact (area_clear_notifies (mount Default).1 eq_refl).
  - exact (area_clear_notifies (mount (with_required false Default)).1
             eq_refl).
Defined.

End ChangePropagation.

Section ExternalError.
Import InputField.

(** C4, amended.  When InputField is rendered with an external error
    object whose flag is set and the flag was not set at the previous
    render, or is mounted with such an object, it becomes invalid and
    takes the object's message, whatever its validity was.  A render
    that leaves the flag set, or that brings a flag that is not set,
    leaves validity and message unchanged: the override is not applied
    again for a new message alone, and it is not cleared when the flag
    goes back to false. *)
Theorem field_external_error :
  (∀ i p x,
     error_flag (props i) ≠ Some true →
     errorObject p = Some (flagged x) →
     isValid (state (step i (Render p)).1) = false
     ∧ errorMessage (state (step i (Render p)).1) = x)
  ∧ (∀ p x,
       errorObject p = Some (flagged x) →
       isValid (state (mount p).1) = false
       ∧ errorMessage (state (mount p).1) = x)
  ∧ (∀ i p,
       error_flag (props i) = Some true ∨ error_flag p ≠ Some true →
       isValid (state (step i (Render p)).1) = isValid (state i)
       ∧ errorMessage (state (step i (Render p)).1)
         = errorMessage (state i)).
Proof.
  split; [| split].
  - intros i p x Hold Hnew.
    assert (error_flag p = Some true) as Hflag
      by (unfold error_flag; by rewrite Hnew).
    destruct (field_render_step i p) as (_ & Hv & Hm). cbv zeta in *.
    rewrite Hflag in Hv, Hm. rewrite Hnew in Hm.
    rewrite bool_decide_eq_false_2 in Hv, Hm by done. done.
  - intros p x Hnew. unfold mount.
    assert (error_flag p = Some true) as Hflag
      by (unfold error_flag; by rewrite Hnew).
    destruct (field_commit_eq None p (initial p)) as (Hv & Hm & _).
    cbv zeta in *. simpl fmap in *. rewrite Hflag in Hv, Hm.
    rewrite Hnew in Hm. simpl in *. by destruct (commit None p (initial p)).
  - intros i p Hflags.
    destruct (field_render_step i p) as (_ & Hv & Hm). cbv zeta in *.
    destruct (negb _ && _) eqn:Hforced; [| done].
    apply andb_true_iff in Hforced as [Hch Hset].
    apply bool_decide_eq_true_1 in Hset.
    apply negb_true_iff, bool_decide_eq_false_1 in Hch.
    destruct Hflags as [Hold | Hnew]; congruence.
Qed.

Lemma field_external_error_witness :
  (isValid
     (state
        (step (mount Default).1
           (Render (with_errorObject (Some (flagged (lit "X"))) Default))).1)
   = false
   ∧ errorMessage
       (state
          (step (mount Default).1
             (Render (with_errorObject (Some (flagged (lit "X")))
                        Default))).1)
     = lit "X")
  ∧ isValid
      (state
         (step (mount (with_errorObject (Some (flagged (lit "X"))) Default)).1
            (Render Default)).1)
    = false.
Proof.
  split.
  - apply (proj1 field_external_error); [discriminate | reflexivity].
  - pose proof (proj2 (proj2 field_external_error)
                  (mount (with_errorObject (Some (flagged (lit "X")))
                            Default)).1
                  Default) as H.
    destruct H as [H _]; [right; discriminate |].
    rewrite H. reflexivity.
Defined.

(** C4 fails as stated.  The error object changes from one with message A
    to one with message X, both with the flag set: the message stays A.
    With a focus loss on a valid value in between, the field is valid
    with an empty message after the change. *)
Lemma field_external_error_counterexample :
  errorMessage
    (state
       (run (with_errorObject (Some (flagged (lit "A"))) Default)
          [Render (with_errorObject (Some (flagged (lit "X"))) Default)]).1)
  = lit "A"
  ∧ isValid
      (state
         (run (with_errorObject (Some (flagged (lit "A")))
                 (with_value (ValString (lit "a@b.com")) Default))
            [Blur;
             Render (with_errorObject (Some (flagged (lit "X")))
                       (with_value (ValString (lit "a@b.com")) Default))]).1)
    = true
  ∧ errorMessage
      (state
         (run (with_errorObject (Some (flagged (lit "A")))
                 (with_value (ValString (lit "a@b.com")) Default))
            [Blur;
             Render (with_errorObject (Some (flagged (lit "X")))
                       (with_value (ValString (lit "a@b.com")) Default))]).1)
    = [].
Proof. repeat split; reflexivity. Qed.

(** C5.  While the external error object of InputField has its flag set
    and has forced the field invalid, a focus loss (not in range use) on a
    value that passes the required check and that the kind's rule does
    not reject makes the field valid and clears the message; the flag of
    the error object is still set afterwards. *)
Theorem field_blur_overrides_external_error i :
  error_flag (props i) = Some true →
  isValid (state i) = false →
  isEditing (props i) = true →
  usedFor (props i) ≠ Some (lit "range") →
  (required (props i) = true → blank (value (props i)) = false) →
  rule_rejects (rule_of (type (props i))) (value (props i)) = false →
  isValid (state (step i Blur).1) = true
  ∧ errorMessage (state (step i Blur).1) = []
  ∧ error_flag (props (step i Blur).1) = Some true.
Proof.
  intros Hflag _ He Hr Hreq Hrule.
  destruct (field_blur_step i He Hr)
    as (ok & msg & Hval & _ & Hp & Hv & Hm & _).
  unfold exec in Hval.
  rewrite field_validate_accepted in Hval; [| | done].
  - injection Hval as <- <-. by rewrite Hv, Hm, Hp.
  - destruct (required (props i)); [| by rewrite andb_false_r].
    by rewrite Hreq.
Qed.

Lemma field_blur_overrides_external_error_witness :
  isValid
    (state
       (step
          (step (mount (with_value (ValString (lit "a@b.com")) Default)).1
             (Render (with_errorObject (Some (flagged (lit "Taken")))
                        (with_value (ValString (lit "a@b.com")) Default)))).1
          Blur).1)
  = true.
Proof.
  apply (field_blur_overrides_external_error
           (step (mount (with_value (ValString (lit "a@b.com")) Default)).1
              (Render (with_errorObject (Some (flagged (lit "Taken")))
                         (with_value (ValString (lit "a@b.com"))
                            Default)))).1).
  - reflexivity.
  - reflexivity.
  - reflexivity.
  - discriminate.
  - reflexivity.
  - reflexivity.
Defined.

End ExternalError.

Section NumberChange.
Import InputField.

(** C6.  For kind number the change handler of InputField equals the
    handler that forwards every change to the caller once: whether or not
    the new value has the shape of a number, the change notifier is called
    exactly once with it, and the state is left as it was. *)
Theorem field_number_change_forwards p v :
  type p = number →
  input_onChange p v = forward_always v
  ∧ (∀ i, props i = p → isEditing p = true →
       step i (Change v) = (i, [OnChange v])).
Proof.
  intros Hk. split.
  - unfold input_onChange, forward_always. by destruct (_ && _).
  - intros i <- He. by apply field_change_step.
Qed.

Lemma field_number_change_forwards_witness :
  change_calls
    (step (mount (with_type number Default)).1 (Change (lit "abc"))).2
  = [lit "abc"]
  ∧ test numberRegex (lit "abc") = false.
Proof.
  split; [| reflexivity].
  rewrite (proj2 (field_number_change_forwards (with_type number Default)
                    (lit "abc") eq_refl)
             (mount (with_type number Default)).1 eq_refl eq_refl).
  reflexivity.
Defined.

End NumberChange.

Section Required.

(** C7.  For every kind of both components, validating a value whose
    trimmed form is empty while the field is required makes the field
    invalid with message "Field is required." (InputArea) or the label
    followed by " is required." (InputField), whatever the kind's regex
    says of the value: the required check comes first. *)
Theorem required_precedes_rule :
  (∀ p s v,
     InputArea.required p = true → trim v = [] →
     (InputArea.validateInput p v s).1.1 = false
     ∧ InputArea.isValid (exec (InputArea.validateInput p v) s).1 = false
     ∧ InputArea.errorMessage (exec (InputArea.validateInput p v) s).1
       = lit "Field is required.")
  ∧ (∀ p snap s,
       InputField.required p = true →
       (∀ text,
          InputField.toString (InputField.value p) = Some text →
          trim text = []) →
       InputField.isValid (exec (InputField.validateInput p snap) s).1 = false
       ∧ InputField.errorMessage (exec (InputField.validateInput p snap) s).1
         = InputField.label p ++ lit " is required.").
Proof.
  split.
  - apply area_required_validation.
  - apply field_required_validation.
Qed.

Lemma required_precedes_rule_witness :
  InputArea.errorMessage
    (exec (InputArea.validateInput InputArea.Default (lit "  "))
          (InputArea.initial InputArea.Default)).1
  = lit "Field is required."
  ∧ InputField.errorMessage
      (exec (InputField.validateInput
               (InputField.with_value (InputField.ValString (lit " "))
                  (InputField.with_type InputField.resource_name
                     InputField.Default))
               (InputField.initial InputField.Default))
            (InputField.initial InputField.Default)).1
    = lit "Email is required.".
Proof.
  split.
  - apply (proj1 required_precedes_rule InputArea.Default
             (InputArea.initial InputArea.Default) (lit "  "));
      reflexivity.
  - apply (proj2 required_precedes_rule
             (InputField.with_value (InputField.ValString (lit " "))
                (InputField.with_type InputField.resource_name
                   InputField.Default))
             (InputField.initial InputField.Default)
             (InputField.initial InputField.Default)).
    + reflexivity.
    + intros text [= <-]. reflexivity.
Defined.

End Required.

Section ValidationReports.

(** C8, on the code.  InputField of the story, with a validation-state
    notifier, mounted and then blurred: the mount reports [true] once; the
    validation run that makes the field invalid reports [true], the
    validity from before the run, and only the effect of the next render
    reports [false].  InputArea in the same situation reports the new
    validity [false] from the run itself. *)
Theorem field_blur_reports_previous_validity :
  InputField.validation_calls
    (InputField.mount
       (InputField.with_onValidationChange (Some 0%nat)
          InputField.Default)).2 = [true]
  ∧ InputField.isValid
      (InputField.state
         (InputField.step
            (InputField.mount
               (InputField.with_onValidationChange (Some 0%nat)
                  InputField.Default)).1
            InputField.Blur).1) = false
  ∧ InputField.validation_calls
      (InputField.step
         (InputField.mount
            (InputField.with_onValidationChange (Some 0%nat)
               InputField.Default)).1
         InputField.Blur).2 = [true; false]
  ∧ InputField.validation_calls
      (exec (InputField.validateInput
               (InputField.with_onValidationChange (Some 0%nat)
                  InputField.Default)
               (InputField.initial InputField.Default))
            (InputField.initial InputField.Default)).2 = [true]
  ∧ InputArea.validation_calls
      (exec (InputArea.validateInput
               (InputArea.with_onValidationChange (Some 0%nat)
                  InputArea.Default) [])
            (InputArea.initial InputArea.Default)).2 = [false]
  ∧ InputArea.validation_calls
      (InputArea.step
         (InputArea.mount
            (InputArea.with_onValidationChange (Some 0%nat)
               InputArea.Default)).1
         InputArea.Blur).2 = [false; false].
Proof. repeat split; reflexivity. Qed.

End ValidationReports.

Section Forwarding.
Import Button.

(** C9, amended.  Button renders a native button that carries every
    attribute and handler of the caller unchanged and nothing else but,
    when the caller supplies no [className], the fixed class.  A
    [className] of the caller takes the place of the fixed class: the
    button then carries the fixed class only if the caller's own value
    names it. *)
Theorem Button_forwards_props (props : gmap string PropValue) :
  tag (Button props) = "button"
  ∧ (∀ k,
       attributes (Button props) !! k =
         match props !! k with
         | Some v => Some v
         | None =>
             if decide (k = "className")
             then Some (Str (lit "text-amber-300"))
             else None
         end)
  ∧ has_class (lit "text-amber-300") (Button props) =
      match props !! "className" with
      | None => true
      | Some (Str s) => bool_decide (lit "text-amber-300" ∈ class_tokens s)
      | Some _ => false
      end.
Proof.
  split; [done |]. split.
  - apply Button_lookup.
  - apply Button_has_class.
Qed.

(** C9 fails as stated: with a [className] of the caller the button does
    not carry the fixed class. *)
Lemma Button_forwards_props_counterexample :
  attributes
    (Button (<["className" := Str (lit "big")]>
             (<["disabled" := Bool true]> ∅))) !! "className"
  = Some (Str (lit "big"))
  ∧ has_class (lit "text-amber-300")
      (Button (<["className" := Str (lit "big")]>
               (<["disabled" := Bool true]> ∅))) = false.
Proof. split; by vm_compute. Qed.

End Forwarding.

(** * Beyond the contract: the patterns, the events, the view, the stories *)

(** ** The languages of the patterns *)

Section Patterns.

Lemma in_ranges_exists c rs :
  in_ranges c rs = true ↔ ∃ r, r ∈ rs ∧ (r.1 ≤ c ∧ c ≤ r.2)%N.
Proof.
  unfold in_ranges. rewrite existsb_exists. split.
  - intros (r & Hin & Hr). exists r. split; [by apply list_elem_of_In |].
    unfold in_range in Hr. apply andb_true_iff in Hr as [H1 H2].
    by apply N.leb_le in H1, H2.
  - intros (r & Hin & H1 & H2). exists r. split; [by apply list_elem_of_In |].
    unfold in_range. apply andb_true_iff. by split; apply N.leb_le.
Qed.

(** Every range of [rs] lies within [lo .. hi]. *)
Lemma in_ranges_within (lo hi : N) rs c :
  Forall (λ r, (lo ≤ r.1 ∧ r.2 ≤ hi)%N) rs →
  in_ranges c rs = true → (lo ≤ c ∧ c ≤ hi)%N.
Proof.
  intros Hall Hc. apply in_ranges_exists in Hc as (r & Hin & H1 & H2).
  rewrite Forall_forall in Hall. destruct (Hall r Hin). lia.
Qed.

Lemma in_ranges_app c rs1 rs2 :
  in_ranges c (rs1 ++ rs2) = in_ranges c rs1 || in_ranges c rs2.
Proof. unfold in_ranges. apply existsb_app. Qed.

Lemma matches_class_inv n items s :
  matches (Class n items) s ↔ ∃ c, s = [c] ∧ class_mem n items c = true.
Proof.
  split.
  - inversion 1; subst. by eexists.
  - intros (c & -> & Hc). by constructor.
Qed.

Lemma matches_cat_inv r1 r2 s :
  matches (Cat r1 r2) s ↔
  ∃ s1 s2, s = s1 ++ s2 ∧ matches r1 s1 ∧ matches r2 s2.
Proof.
  split.
  - inversion 1; subst. by eexists _, _.
  - intros (s1 & s2 & -> & H1 & H2). by constructor.
Qed.

Lemma matches_and_inv r1 r2 s :
  matches (And r1 r2) s ↔ matches r1 s ∧ matches r2 s.
Proof.
  split.
  - inversion 1; by subst.
  - intros [H1 H2]. by constructor.
Qed.

Lemma matches_alt_inv r1 r2 s :
  matches (Alt r1 r2) s ↔ matches r1 s ∨ matches r2 s.
Proof.
  split.
  - inversion 1; subst; auto.
  - intros [H | H]; [by apply matches_alt_l | by apply matches_alt_r].
Qed.

Lemma matches_eps_inv s : matches Eps s ↔ s = [].
Proof.
  split.
  - by inversion 1.
  - intros ->. constructor.
Qed.

(** The strings of a starred class. *)
Lemma matches_star_class n items s :
  matches (Star (Class n items)) s ↔ forallb (class_mem n items) s = true.
Proof.
  split.
  - intros H. remember (Star (Class n items)) as q eqn:Hq.
    induction H as [| | | | | | r s1 s2 H1 _ H2 IH2 |]; try discriminate.
    + done.
    + injection Hq as ->. apply matches_class_inv in H1 as (c & -> & Hc).
      simpl. rewrite Hc. by apply IH2.
  - induction s as [| c s IH]; simpl; [constructor |].
    intros H. apply andb_true_iff in H as [Hc Hs].
    apply (matches_star_app _ [c] s); [by constructor | by apply IH].
Qed.

Lemma matches_plus_class n items s :
  matches (plus (Class n items)) s ↔
  s ≠ [] ∧ forallb (class_mem n items) s = true.
Proof.
  unfold plus. rewrite matches_cat_inv. split.
  - intros (s1 & s2 & -> & H1 & H2).
    apply matches_class_inv in H1 as (c & -> & Hc).
    apply matches_star_class in H2. simpl. by rewrite Hc.
  - intros [Hne H]. destruct s as [| c s]; [done |]. simpl in H.
    apply andb_true_iff in H as [Hc Hs]. exists [c], s.
    split; [done |]. split; [by constructor | by apply matches_star_class].
Qed.

Lemma matches_at_least_class k n items s :
  matches (at_least k (Class n items)) s ↔
  (k ≤ length s)%nat ∧ forallb (class_mem n items) s = true.
Proof.
  revert s. induction k as [| k IH]; intros s; simpl.
  - rewrite matches_star_class. split; [intros H; split; [lia | done] | by intros [_ H]].
  - rewrite matches_cat_inv. split.
    + intros (s1 & s2 & -> & H1 & H2).
      apply matches_class_inv in H1 as (c & -> & Hc).
      apply IH in H2 as [Hlen Hs]. simpl. rewrite Hc. split; [lia | done].
    + intros [Hlen H]. destruct s as [| c s]; simpl in *; [lia |].
      apply andb_true_iff in H as [Hc Hs]. exists [c], s.
      split; [done |]. split; [by constructor |]. apply IH. split; [lia | done].
Qed.

Lemma matches_anything s : matches anything s.
Proof.
  apply matches_star_class. induction s as [| c s IH]; simpl; [done |].
  by rewrite IH.
Qed.

Lemma existsb_split {A} (f : A → bool) (l : list A) :
  existsb f l = true ↔ ∃ pre c post, l = pre ++ c :: post ∧ f c = true.
Proof.
  rewrite existsb_exists. split.
  - intros (c & Hin & Hc). apply in_split in Hin as (pre & post & ->).
    by exists pre, c, post.
  - intros (pre & c & post & -> & Hc). exists c. split; [| done].
    apply in_or_app. right. by left.
Qed.

(** [(?=.*[cls])q]: some code unit of the class is preceded by no line
    terminator, and the string matches [q]. *)
Lemma matches_lookahead_class cls q s :
  matches (lookahead (Cat (Star dot) (Class false cls)) q) s ↔
  (∃ pre c post,
     s = pre ++ c :: post
     ∧ forallb (class_mem true [(10, 10); (13, 13); (8232, 8233)]) pre = true
     ∧ in_ranges c cls = true)
  ∧ matches q s.
Proof.
  unfold lookahead. rewrite matches_and_inv, matches_cat_inv.
  split; intros [H Hq]; (split; [| done]).
  - destruct H as (s1 & post & -> & H1 & _).
    apply matches_cat_inv in H1 as (pre & s2 & -> & Hpre & Hc).
    apply matches_class_inv in Hc as (c & -> & Hc).
    apply matches_star_class in Hpre.
    exists pre, c, post. by rewrite <- app_assoc.
  - destruct H as (pre & c & post & -> & Hpre & Hc).
    exists (pre ++ [c]), post. split; [by rewrite <- app_assoc |].
    split; [| apply matches_anything].
    apply matches_cat_inv. exists pre, [c]. split; [done |].
    split; [by apply matches_star_class | by constructor].
Qed.

Lemma class_mem_one a c : class_mem false [one a] c = true ↔ c = ch a.
Proof.
  unfold class_mem, in_ranges, in_range, one. simpl.
  rewrite orb_false_r, andb_true_iff, !N.leb_le. lia.
Qed.

Lemma matches_char_inv a s : matches (char a) s ↔ s = [ch a].
Proof.
  unfold char. rewrite matches_class_inv. split.
  - intros (c & -> & Hc). apply class_mem_one in Hc. by subst.
  - intros ->. exists (ch a). split; [done |]. by apply class_mem_one.
Qed.

(** The code units the password pattern admits are no line terminators. *)
Lemma password_unit_not_terminator c :
  in_ranges c (letters ++ digit ++ InputField.symbols) = true →
  class_mem true [(10, 10); (13, 13); (8232, 8233)] c = true.
Proof.
  intros Hc. apply (in_ranges_within 33 122) in Hc.
  - unfold class_mem.
    destruct (in_ranges c [(10, 10); (13, 13); (8232, 8233)]) eqn:Hd;
      [| done].
    apply in_ranges_exists in Hd as (r & Hin & H1 & H2).
    repeat (apply elem_of_cons in Hin as [-> | Hin]; [simpl in *; lia |]).
    by apply elem_of_nil in Hin.
  - repeat (constructor; [by vm_compute |]). constructor.
Qed.

Lemma password_lookahead cls s :
  forallb (λ c, in_ranges c (letters ++ digit ++ InputField.symbols)) s
  = true →
  (∃ pre c post,
     s = pre ++ c :: post
     ∧ forallb (class_mem true [(10, 10); (13, 13); (8232, 8233)]) pre = true
     ∧ in_ranges c cls = true)
  ↔ existsb (λ c, in_ranges c cls) s = true.
Proof.
  intros Hall. rewrite existsb_split. split.
  - intros (pre & c & post & -> & _ & Hc). by exists pre, c, post.
  - intros (pre & c & post & -> & Hc). exists pre, c, post.
    split; [done |]. split; [| done].
    rewrite forallb_app in Hall. apply andb_true_iff in Hall as [Hpre _].
    rewrite forallb_forall in Hpre. apply forallb_forall. intros d Hd.
    by apply password_unit_not_terminator, Hpre.
Qed.

Lemma password_pattern_holds s :
  test InputField.passwordRegex s = true ↔
    (10 ≤ length s)%nat
    ∧ forallb (λ c, in_ranges c (letters ++ digit ++ InputField.symbols)) s
      = true
    ∧ existsb (λ c, in_ranges c [rng "a" "z"]) s = true
    ∧ existsb (λ c, in_ranges c [rng "A" "Z"]) s = true
    ∧ existsb (λ c, in_ranges c digit) s = true
    ∧ existsb (λ c, in_ranges c InputField.symbols) s = true.
Proof.
  rewrite test_matches. unfold InputField.passwordRegex.
  rewrite !matches_lookahead_class, matches_at_least_class.
  change (class_mem false (letters ++ digit ++ InputField.symbols))
    with (λ c, in_ranges c (letters ++ digit ++ InputField.symbols)).
  split.
  - intros (H1 & H2 & H3 & H4 & Hlen & Hall).
    repeat split; [done | done | ..]; by apply (password_lookahead _ s Hall).
  - intros (Hlen & Hall & H1 & H2 & H3 & H4).
    repeat split; [.. | done | done]; by apply (password_lookahead _ s Hall).
Qed.

(** X1.  The password pattern accepts exactly the strings of at least
    ten code units, all of them letters, digits or symbols of the fixed
    set, with at least one lowercase letter, one uppercase letter, one
    digit and one symbol: what the message of the rule says. *)
Theorem password_pattern s :
  test InputField.passwordRegex s = true ↔
    (10 ≤ length s)%nat
    ∧ forallb (λ c, in_ranges c (letters ++ digit ++ InputField.symbols)) s
      = true
    ∧ existsb (λ c, in_ranges c [rng "a" "z"]) s = true
    ∧ existsb (λ c, in_ranges c [rng "A" "Z"]) s = true
    ∧ existsb (λ c, in_ranges c digit) s = true
    ∧ existsb (λ c, in_ranges c InputField.symbols) s = true.
Proof. apply password_pattern_holds. Qed.

Lemma email_pattern_holds s :
  test InputField.emailRegex s = true ↔
    ∃ l d t,
      s = l ++ ch "@" :: d ++ ch "." :: t
      ∧ l ≠ [] ∧ d ≠ [] ∧ t ≠ []
      ∧ forallb (λ c, negb (in_ranges c (white_space ++ [one "@"])))
          (l ++ d ++ t) = true.
Proof.
  rewrite test_matches. unfold InputField.emailRegex. cbv zeta.
  rewrite matches_cat_inv. split.
  - intros (l & s1 & -> & Hl & H1).
    apply matches_cat_inv in H1 as (a & s2 & -> & Ha & H2).
    apply matches_char_inv in Ha as ->.
    apply matches_cat_inv in H2 as (d & s3 & -> & Hd & H3).
    apply matches_cat_inv in H3 as (b & t & -> & Hb & Ht).
    apply matches_char_inv in Hb as ->.
    apply matches_plus_class in Hl as [Hl1 Hl2], Hd as [Hd1 Hd2],
      Ht as [Ht1 Ht2].
    exists l, d, t. repeat split; try done.
    rewrite !forallb_app, andb_true_iff, andb_true_iff. done.
  - intros (l & d & t & -> & Hl & Hd & Ht & Hall).
    rewrite !forallb_app, andb_true_iff, andb_true_iff in Hall.
    destruct Hall as (Hl2 & Hd2 & Ht2).
    exists l, (ch "@" :: d ++ ch "." :: t). split; [done |].
    split; [by apply matches_plus_class |].
    apply (matches_cat _ _ [ch "@"]); [by apply matches_char_inv |].
    apply matches_cat; [by apply matches_plus_class |].
    apply (matches_cat _ _ [ch "."]); [by apply matches_char_inv |].
    by apply matches_plus_class.
Qed.

(** X2.  The email pattern accepts exactly the strings made of a local
    part, an at sign, a domain part, a dot and a last part, the three parts
    non-empty and free of white space and of at signs. *)
Theorem email_pattern s :
  test InputField.emailRegex s = true ↔
    ∃ l d t,
      s = l ++ ch "@" :: d ++ ch "." :: t
      ∧ l ≠ [] ∧ d ≠ [] ∧ t ≠ []
      ∧ forallb (λ c, negb (in_ranges c (white_space ++ [one "@"])))
          (l ++ d ++ t) = true.
Proof. apply email_pattern_holds. Qed.

Lemma email_unit c :
  negb (in_ranges c (white_space ++ [one "@"])) = true ↔
  is_white_space c = false ∧ c ≠ ch "@".
Proof.
  rewrite in_ranges_app, negb_true_iff, orb_false_iff.
  unfold is_white_space.
  assert (in_ranges c [one "@"] = false ↔ c ≠ ch "@") as ->; [| done].
  rewrite <- not_true_iff_false.
  pose proof (class_mem_one "@" c) as H.
  change (class_mem false [one "@"] c) with (in_ranges c [one "@"]) in H.
  tauto.
Qed.

Lemma email_part_units l :
  forallb (λ c, negb (in_ranges c (white_space ++ [one "@"]))) l = true →
  forallb (λ c, negb (is_white_space c)) l = true
  ∧ count_occ N.eq_dec l (ch "@") = 0%nat.
Proof.
  induction l as [| c l IH]; simpl; [done |].
  intros H. apply andb_true_iff in H as [Hc Hl].
  apply email_unit in Hc as [Hws Hat]. destruct (IH Hl) as [IH1 IH2].
  rewrite Hws, IH1. split; [done |].
  destruct (N.eq_dec c _) as [Heq | _]; [by destruct Hat | done].
Qed.

Lemma email_one_at_sign_holds s :
  test InputField.emailRegex s = true →
  forallb (λ c, negb (is_white_space c)) s = true
  ∧ count_occ N.eq_dec s (ch "@") = 1%nat.
Proof.
  intros H. apply email_pattern_holds in H as (l & d & t & -> & _ & _ & _ & H).
  rewrite !forallb_app, andb_true_iff, andb_true_iff in H.
  destruct H as (Hl & Hd & Ht).
  apply email_part_units in Hl as [Hl1 Hl2], Hd as [Hd1 Hd2],
    Ht as [Ht1 Ht2].
  split.
  - rewrite forallb_app. simpl. rewrite forallb_app. simpl.
    by rewrite Hl1, Hd1, Ht1.
  - rewrite count_occ_app, count_occ_cons_eq by done.
    rewrite count_occ_app, count_occ_cons_neq by done.
    by rewrite Hl2, Hd2, Ht2.
Qed.

(** X3.  A string the email pattern accepts holds no white space and
    exactly one at sign. *)
Theorem email_one_at_sign s :
  test InputField.emailRegex s = true →
  forallb (λ c, negb (is_white_space c)) s = true
  ∧ count_occ N.eq_dec s (ch "@") = 1%nat.
Proof. apply email_one_at_sign_holds. Qed.

Lemma email_one_at_sign_witness :
  count_occ N.eq_dec (lit "a@b.com") (ch "@") = 1%nat.
Proof. apply (email_one_at_sign (lit "a@b.com")). reflexivity. Defined.

Lemma forallb_impl {A} (f g : A → bool) (l : list A) :
  (∀ x, f x = true → g x = true) →
  forallb f l = true → forallb g l = true.
Proof.
  intros Hfg. rewrite !forallb_forall. intros H x Hx. by apply Hfg, H.
Qed.

Lemma class_patterns_holds s :
  (test InputField.alphabetsRegex s = true ↔
     s ≠ [] ∧ forallb (λ c, in_ranges c letters) s = true)
  ∧ (test InputField.resourceNameRegex s = true ↔
       s ≠ []
       ∧ forallb (λ c, in_ranges c
                         (letters ++ digit ++
                          [one "#"; one "-"; one "_"; one " "])) s = true)
  ∧ (test InputArea.resourceDescriptionRegex s = true ↔
       s ≠ []
       ∧ forallb (λ c, in_ranges c
                         (letters ++ digit ++
                          [one "#"; one "-"; one "_"; one "."; one ",";
                           one " "])) s = true)
  ∧ (test InputField.alphabetsRegex s = true →
     test InputField.resourceNameRegex s = true)
  ∧ (test InputField.resourceNameRegex s = true →
     test InputArea.resourceDescriptionRegex s = true).
Proof.
  assert (∀ items,
            test (plus (Class false items)) s = true ↔
            s ≠ [] ∧ forallb (λ c, in_ranges c items) s = true) as Hplus.
  { intros items. by rewrite test_matches, matches_plus_class. }
  split; [apply Hplus |]. split; [apply Hplus |]. split; [apply Hplus |].
  unfold InputField.alphabetsRegex, InputField.resourceNameRegex,
    InputArea.resourceDescriptionRegex.
  rewrite !Hplus. split; intros [Hne H]; (split; [done |]);
    revert H; apply forallb_impl; intros c Hc.
  - rewrite in_ranges_app. by rewrite Hc.
  - rewrite !in_ranges_app in *.
    apply orb_true_iff in Hc as [Hc | Hc]; [by rewrite Hc |].
    apply orb_true_iff in Hc as [Hc | Hc]; [by rewrite Hc, orb_true_r |].
    rewrite !orb_true_iff. right. right.
    apply in_ranges_exists in Hc as (r & Hin & Hr).
    apply in_ranges_exists. exists r. split; [| done].
    repeat (apply elem_of_cons in Hin as [-> | Hin];
            [repeat ((by left) || right) |]).
    by apply elem_of_nil in Hin.
Qed.

(** X4.  The three patterns made of one repeated class accept exactly the
    non-empty strings over their class: letters (alphabets); letters,
    digits, [#], [-], [_] and the space (resource_name); the same and the
    dot and the comma (description).  Hence what alphabets accepts
    resource_name accepts, and what resource_name accepts description
    accepts. *)
Theorem class_patterns s :
  (test InputField.alphabetsRegex s = true ↔
     s ≠ [] ∧ forallb (λ c, in_ranges c letters) s = true)
  ∧ (test InputField.resourceNameRegex s = true ↔
       s ≠ []
       ∧ forallb (λ c, in_ranges c
                         (letters ++ digit ++
                          [one "#"; one "-"; one "_"; one " "])) s = true)
  ∧ (test InputArea.resourceDescriptionRegex s = true ↔
       s ≠ []
       ∧ forallb (λ c, in_ranges c
                         (letters ++ digit ++
                          [one "#"; one "-"; one "_"; one "."; one ",";
                           one " "])) s = true)
  ∧ (test InputField.alphabetsRegex s = true →
     test InputField.resourceNameRegex s = true)
  ∧ (test InputField.resourceNameRegex s = true →
     test InputArea.resourceDescriptionRegex s = true).
Proof. apply class_patterns_holds. Qed.

Lemma class_patterns_witness :
  test InputArea.resourceDescriptionRegex (lit "Ab") = true.
Proof.
  destruct (class_patterns (lit "Ab")) as (_ & _ & _ & H1 & H2).
  apply H2, H1. reflexivity.
Defined.

(** White space is none of the letters, digits and symbols. *)
Lemma white_space_not_password_unit c :
  is_white_space c = true →
  in_ranges c (letters ++ digit ++ InputField.symbols) = false.
Proof.
  intros Hws. apply not_true_iff_false. intros Hc.
  apply (in_ranges_within 33 122) in Hc;
    [| repeat (constructor; [by vm_compute |]); constructor].
  apply in_ranges_exists in Hws as (r & Hin & H1 & H2).
  repeat (apply elem_of_cons in Hin as [-> | Hin]; [simpl in *; lia |]).
  by apply elem_of_nil in Hin.
Qed.

Lemma white_space_rejected_holds s :
  s ≠ [] → forallb is_white_space s = true →
  test InputField.alphabetsRegex s = false
  ∧ test InputField.emailRegex s = false
  ∧ test InputField.passwordRegex s = false.
Proof.
  intros Hne Hws. destruct s as [| c s]; [done |]. simpl in Hws.
  apply andb_true_iff in Hws as [Hc Hs].
  pose proof (white_space_not_password_unit c Hc) as Hn.
  rewrite !in_ranges_app in Hn. apply orb_false_iff in Hn as [Hl _].
  repeat split; apply not_true_iff_false; intros H.
  - apply class_patterns_holds in H as [_ H]. cbn [forallb] in H.
    by rewrite Hl in H.
  - apply email_one_at_sign_holds in H as [H _]. cbn [forallb] in H.
    by rewrite Hc in H.
  - apply password_pattern_holds in H as (_ & H & _). cbn [forallb] in H.
    by rewrite (white_space_not_password_unit c Hc) in H.
Qed.

(** X5.  A non-empty string of white space only is rejected by the
    alphabets, email and password patterns. *)
Theorem white_space_rejected s :
  s ≠ [] → forallb is_white_space s = true →
  test InputField.alphabetsRegex s = false
  ∧ test InputField.emailRegex s = false
  ∧ test InputField.passwordRegex s = false.
Proof. apply white_space_rejected_holds. Qed.

Lemma white_space_rejected_witness :
  test InputField.emailRegex (lit "  ") = false.
Proof.
  apply (white_space_rejected (lit "  ")); [discriminate | reflexivity].
Defined.

End Patterns.

(** ** Validation at the edges *)

Section Edges.

(** X6.  The kinds file and number have no rule: validation makes such a
    field invalid only when it is required and blank, whatever the
    value holds otherwise. *)
Theorem field_kinds_without_rule p snap s :
  InputField.type p = InputField.file
  ∨ InputField.type p = InputField.number →
  InputField.isValid (exec (InputField.validateInput p snap) s).1
  = negb (InputField.blank (InputField.value p) && InputField.required p)
  ∧ InputField.errorMessage (exec (InputField.validateInput p snap) s).1
    = (if InputField.blank (InputField.value p) && InputField.required p
       then InputField.label p ++ lit " is required." else []).
Proof.
  intros Hk. unfold exec.
  destruct (InputField.blank (InputField.value p) && InputField.required p)
    eqn:Hreq.
  - apply andb_true_iff in Hreq as [Hb Hr].
    by rewrite field_validate_required.
  - rewrite field_validate_accepted; [done | done |].
    rewrite field_rule_of. by destruct Hk as [-> | ->].
Qed.

Lemma field_kinds_without_rule_witness :
  InputField.isValid
    (exec (InputField.validateInput
             (InputField.with_value (InputField.ValString (lit "a b!"))
                (InputField.with_type InputField.number InputField.Default))
             (InputField.initial InputField.Default))
          (InputField.initial InputField.Default)).1 = true.
Proof.
  apply (field_kinds_without_rule
           (InputField.with_value (InputField.ValString (lit "a b!"))
              (InputField.with_type InputField.number InputField.Default))).
  by right.
Defined.

(** X7.  The empty value.  InputField given no value or the empty string
    is valid exactly when it is not required, for every kind; InputArea
    given a value of white space only (the empty string among them) is
    valid exactly when it is not required, and [validateInput] returns
    that verdict. *)
Theorem empty_value_validation :
  (∀ p snap s,
     InputField.value p = InputField.ValUndefined
     ∨ InputField.value p = InputField.ValString [] →
     InputField.isValid (exec (InputField.validateInput p snap) s).1
     = negb (InputField.required p))
  ∧ (∀ p s v,
       forallb is_white_space v = true →
       (InputArea.validateInput p v s).1.1 = negb (InputArea.required p)
       ∧ InputArea.isValid (exec (InputArea.validateInput p v) s).1
         = negb (InputArea.required p)).
Proof.
  split.
  - intros p snap s Hv. unfold exec.
    assert (InputField.blank (InputField.value p) = true) as Hb
      by (by destruct Hv as [-> | ->]).
    destruct (InputField.required p) eqn:Hr.
    + by rewrite field_validate_required.
    + rewrite field_validate_accepted; [done | by rewrite Hr, andb_false_r |].
      unfold InputField.rule_rejects.
      destruct (InputField.rule_of _); [| done].
      by destruct Hv as [-> | ->].
  - intros p s v Hv. apply trim_nil in Hv. unfold exec.
    destruct (InputArea.required p) eqn:Hr.
    + rewrite area_validate_required; [done | by rewrite Hv | done].
    + rewrite area_validate_accepted; [done | done |].
      by rewrite Hv.
Qed.

Lemma empty_value_validation_witness :
  InputField.isValid
    (exec (InputField.validateInput InputField.Default
             (InputField.initial InputField.Default))
          (InputField.initial InputField.Default)).1 = false
  ∧ InputArea.isValid
      (exec (InputArea.validateInput
               (InputArea.with_required false InputArea.Default) [10; 32])
            (InputArea.initial InputArea.Default)).1 = true.
Proof.
  split.
  - apply (proj1 empty_value_validation InputField.Default). by right.
  - apply (proj2 empty_value_validation
             (InputArea.with_required false InputArea.Default)).
    reflexivity.
Defined.

(** X8.  InputField never accepts a non-empty value of white space only
    for the kinds alphabets, email, password and passwordVisible: it is
    invalid with the required message when the field is required and with
    the kind's message otherwise. *)
Theorem field_white_space_value p snap s text r :
  InputField.toString (InputField.value p) = Some text →
  text ≠ [] → forallb is_white_space text = true →
  InputField.type p ∈
    [InputField.alphabets; InputField.email; InputField.password;
     InputField.passwordVisible] →
  InputField.rule_of (InputField.type p) = Some r →
  InputField.isValid (exec (InputField.validateInput p snap) s).1 = false
  ∧ InputField.errorMessage (exec (InputField.validateInput p snap) s).1
    = (if InputField.required p
       then InputField.label p ++ lit " is required."
       else InputField.message r).
Proof.
  intros Htext Hne Hws Hk Hrule.
  destruct (white_space_rejected_holds text Hne Hws) as (Ha & He & Hp).
  assert (InputField.blank (InputField.value p) = true) as Hb.
  { unfold InputField.blank. rewrite Htext.
    apply trim_nil in Hws. by rewrite Hws. }
  unfold exec. destruct (InputField.required p) eqn:Hr.
  - by rewrite field_validate_required.
  - rewrite (field_validate_rejected _ _ _ r);
      [done | by rewrite Hr, andb_false_r | done |].
    unfold InputField.rule_rejects. rewrite Htext.
    rewrite bool_decide_eq_true_2 by (by destruct text).
    rewrite field_rule_of in Hrule.
    repeat (apply elem_of_cons in Hk as [Hk | Hk];
            [rewrite Hk in Hrule; injection Hrule as <-; simpl;
             by rewrite ?Ha, ?He, ?Hp |]).
    by apply elem_of_nil in Hk.
Qed.

Lemma field_white_space_value_witness :
  InputField.errorMessage
    (exec (InputField.validateInput
             (InputField.with_required false
                (InputField.with_value (InputField.ValString (lit " "))
                   InputField.Default))
             (InputField.initial InputField.Default))
          (InputField.initial InputField.Default)).1
  = lit "Invalid email format.".
Proof.
  apply (field_white_space_value
           (InputField.with_required false
              (InputField.with_value (InputField.ValString (lit " "))
                 InputField.Default))
           (InputField.initial InputField.Default)
           (InputField.initial InputField.Default)
           (lit " ")
           {| InputField.regex := InputField.emailRegex;
              InputField.message := lit "Invalid email format." |}).
  - reflexivity.
  - discriminate.
  - reflexivity.
  - apply list_elem_of_further, list_elem_of_here.
  - reflexivity.
Defined.

End Edges.

(** ** Events of InputField *)

Section FieldEvents.
Import InputField.

(** The commit that follows a handler renders the state the handler
    queued, as it is. *)
Lemma field_commit_same_state p s s1 :
  (commit (Some (p, s)) p s1).1 = s1.
Proof.
  unfold commit, exec. rewrite field_effects_eq. simpl fmap.
  rewrite !changed_same. simpl. rewrite field_effects_eq. simpl fmap.
  by rewrite !changed_same.
Qed.

(** The verdict of [validateInput] is decided by the props alone. *)
Lemma field_verdict_of_props p :
  ∃ ok msg, ∀ snap s,
    validateInput p snap s =
      (tt, {| isValid := ok; errorMessage := msg;
              characterCount := characterCount s |},
       reported p (isValid snap)).
Proof.
  destruct (blank (value p) && required p) eqn:Hreq.
  - apply andb_true_iff in Hreq as [Hb Hr].
    eexists false, _. intros snap s. by rewrite field_validate_required.
  - destruct (rule_rejects (rule_of (type p)) (value p)) eqn:Hrej.
    + destruct (rule_of (type p)) as [r |] eqn:Hrule; [| done].
      eexists false, _. intros snap s.
      by rewrite (field_validate_rejected _ _ _ r).
    + exists true, []. intros snap s. by rewrite field_validate_accepted.
Qed.

(** X9.  In range use a focus loss of InputField runs no validation: the
    instance is left as it is, and the only call made is the one to the
    focus-out notifier, when the caller supplied it. *)
Theorem field_range_blur i :
  isEditing (props i) = true →
  usedFor (props i) = Some (lit "range") →
  step i Blur =
    (i, if bool_decide (is_Some (handleFocusOut (props i)))
        then [HandleFocusOut] else []).
Proof.
  intros He Hr. unfold step. rewrite He. unfold handle, exec.
  rewrite field_handleBlur_range by done. rewrite field_commit_idle.
  rewrite app_nil_r. by destruct i.
Qed.

(** The props of the story, in range use with a focus-out notifier and
    an invalid value. *)
Lemma field_range_blur_witness :
  step (mount
          {| label := lit "Min"; value := ValString (lit "x");
             type := email; required := true;
             onValidationChange := Some 0%nat; isEditing := true;
             usedFor := Some (lit "range"); handleFocusOut := Some 1%nat;
             errorObject := None |}).1 Blur
  = ((mount
        {| label := lit "Min"; value := ValString (lit "x");
           type := email; required := true;
           onValidationChange := Some 0%nat; isEditing := true;
           usedFor := Some (lit "range"); handleFocusOut := Some 1%nat;
           errorObject := None |}).1,
     [HandleFocusOut]).
Proof.
  exact (field_range_blur
           (mount
              {| label := lit "Min"; value := ValString (lit "x");
                 type := email; required := true;
                 onValidationChange := Some 0%nat; isEditing := true;
                 usedFor := Some (lit "range"); handleFocusOut := Some 1%nat;
                 errorObject := None |}).1 eq_refl eq_refl).
Defined.

(** X10.  InputField does not validate on change, for any kind: a change
    event hands the new value to the change notifier once and leaves
    validity, message and count as they were, however invalid the value. *)
Theorem field_change_never_validates i v :
  isEditing (props i) = true →
  step i (Change v) = (i, [OnChange v]).
Proof. apply field_change_step. Qed.

Lemma field_change_never_validates_witness :
  isValid (state (step (mount Default).1 (Change (lit "not an email"))).1)
  = true.
Proof.
  rewrite (field_change_never_validates (mount Default).1
             (lit "not an email") eq_refl).
  reflexivity.
Defined.

(** X11.  A second focus loss of InputField changes nothing: the state is
    the one the first left, and the notifier hears that state's validity
    once. *)
Theorem field_blur_twice i :
  isEditing (props i) = true →
  usedFor (props i) ≠ Some (lit "range") →
  (step (step i Blur).1 Blur).1 = (step i Blur).1
  ∧ (step (step i Blur).1 Blur).2
    = reported (props i) (isValid (state (step i Blur).1)).
Proof.
  intros He Hr.
  destruct (field_verdict_of_props (props i)) as (ok & msg & Hval).
  assert (∀ j, props j = props i →
            step j Blur =
              ({| props := props i;
                  state := {| isValid := ok; errorMessage := msg;
                              characterCount := characterCount (state j) |} |},
               reported (props i) (isValid (state j))
               ++ (if bool_decide (isValid (state j) = ok) then []
                   else reported (props i) ok))) as Hstep.
  { intros j Hj. unfold step. rewrite Hj, He. unfold handle, exec.
    rewrite Hj, field_handleBlur_validate, Hval by done.
    set (s1 := {| isValid := ok; errorMessage := msg;
                  characterCount := characterCount (state j) |}).
    pose proof (field_commit_same_state (props i) (state j) s1) as Hs.
    destruct (field_commit_same (props i) (state j) s1) as (_ & _ & Hc).
    destruct (commit _ _ s1) as [s2 c2]. simpl in *. by subst. }
  rewrite (Hstep i eq_refl). cbn [fst snd].
  match goal with
  | |- context [step ?j Blur] => rewrite (Hstep j eq_refl)
  end.
  cbn [fst snd state isValid characterCount].
  rewrite bool_decide_eq_true_2 by done. by rewrite app_nil_r.
Qed.

Lemma field_blur_twice_witness :
  (step (step (mount Default).1 Blur).1 Blur).1 = (step (mount Default).1 Blur).1.
Proof.
  apply (field_blur_twice (mount Default).1); [reflexivity | discriminate].
Defined.

(** A commit sets the count when the value is new, and keeps it
    otherwise. *)
Lemma field_commit_count prev p s :
  characterCount (commit prev p s).1
  = (if changed ((λ r, value r.1) <$> prev) (value p)
     then from_option length 0%nat (toString (value p))
     else characterCount s).
Proof.
  unfold commit, exec. rewrite field_effects_eq.
  cbv zeta. rewrite field_effects_eq. simpl fmap. rewrite !changed_same.
  simpl andb. cbv iota.
  destruct (changed _ (value p)), (changed _ (error_flag p) && _); done.
Qed.

Lemma field_step_count i e :
  characterCount (state i)
  = from_option length 0%nat (toString (value (props i))) →
  characterCount (state (step i e).1)
  = from_option length 0%nat (toString (value (props (step i e).1))).
Proof.
  intros Hi.
  assert (∀ m s1 c, m (state i) = (tt, s1, c) →
            characterCount s1 = characterCount (state i) →
            characterCount (state (handle i m).1)
            = from_option length 0%nat
                (toString (value (props (handle i m).1)))) as Hh.
  { intros m s1 c Hm Hc. unfold handle, exec. rewrite Hm.
    pose proof (field_commit_same_state (props i) (state i) s1) as Hs.
    destruct (commit _ _ s1) as [s2 c2]. simpl in *. subst s2. congruence. }
  destruct e as [v | | p]; unfold step.
  - destruct (isEditing (props i)); [| done].
    simpl. eapply Hh; [apply field_input_onChange_eq | done].
  - destruct (isEditing (props i)); [| done].
    destruct (decide (usedFor (props i) = Some (lit "range"))) as [Hr | Hr].
    + simpl. eapply Hh; [by apply field_handleBlur_range | done].
    + destruct (field_validate_cases (props i) (state i) (state i))
        as (ok & msg & Hval & _).
      simpl. eapply Hh.
      * rewrite field_handleBlur_validate by done. exact Hval.
      * done.
  - pose proof (field_commit_count (Some (props i, state i)) p (state i))
      as H.
    destruct (commit _ p (state i)) as [s2 c2]. simpl in *. rewrite H.
    destruct (decide (value (props i) = value p)) as [Heq | Hne].
    + rewrite bool_decide_eq_true_2 by done. simpl. by rewrite <- Heq.
    + by rewrite bool_decide_eq_false_2.
Qed.



End FieldEvents.

(** ** Events of InputArea *)

Section AreaEvents.
Import InputArea.

Lemma area_commit_same_state p s s1 :
  (commit (Some (p, s)) p s1).1 = s1.
Proof.
  unfold commit, exec. rewrite area_effects_eq. simpl fmap.
  rewrite !changed_same. simpl. rewrite area_effects_eq. simpl fmap.
  by rewrite !changed_same.
Qed.

(** Every validity a commit reports is the validity it rendered. *)
Lemma area_commit_reports prev p s :
  Forall (λ b, b = isValid s) (validation_calls (commit prev p s).2).
Proof.
  unfold commit, exec. rewrite area_effects_eq. cbv zeta.
  rewrite area_effects_eq. simpl fmap. rewrite changed_same.
  cbn [snd]. rewrite area_validation_calls_app. apply Forall_app. split.
  - destruct (changed _ _); [| constructor].
    unfold reported. destruct (bool_decide _); repeat constructor.
  - destruct (changed _ (isValid _, _)); [| constructor].
    unfold reported. destruct (bool_decide _); [| constructor].
    repeat constructor. by destruct (changed _ (value p)).
Qed.

Lemma area_reported_forall p b :
  Forall (λ c, c = b) (validation_calls (reported p b)).
Proof. unfold reported. destruct (bool_decide _); repeat constructor. Qed.

(** X13.  InputArea never reports a stale validity: every value the
    validation-state notifier hears during an event is the validity the
    field has after that event. *)
Theorem area_reports_current_validity i e :
  Forall (λ b, b = isValid (state (step i e).1))
         (validation_calls (step i e).2).
Proof.
  assert (∀ m ok msg c,
            m (state i) =
              (tt, {| isValid := ok; errorMessage := msg;
                      characterCount := characterCount (state i) |}, c) →
            Forall (λ b, b = ok) (validation_calls c) →
            Forall (λ b, b = isValid (state (handle i m).1))
                   (validation_calls (handle i m).2)) as Hh.
  { intros m ok msg c Hm Hc. unfold handle, exec. rewrite Hm.
    set (s1 := {| isValid := ok; errorMessage := msg;
                  characterCount := characterCount (state i) |}).
    pose proof (area_commit_same_state (props i) (state i) s1) as Hs.
    pose proof (area_commit_reports (Some (props i, state i)) (props i) s1)
      as Hr.
    destruct (commit _ _ s1) as [s2 c2]. simpl in *. subst s2.
    rewrite area_validation_calls_app. by apply Forall_app. }
  destruct e as [v | | p]; unfold step.
  - destruct (isEditing (props i)); [| constructor].
    destruct (area_validate_cases (props i) v (state i))
      as (ok & msg & Hval & _ & _).
    eapply Hh; [exact (area_onChange_eq _ _ _ _ _ _ Hval) |].
    rewrite !area_validation_calls_app. repeat (apply Forall_app; split).
    + destruct (bool_decide _); constructor.
    + apply area_reported_forall.
    + destruct ok; constructor.
  - destruct (isEditing (props i)); [| constructor].
    destruct (area_validate_cases (props i) (value (props i)) (state i))
      as (ok & msg & Hval & _ & _).
    eapply Hh; [exact (area_handleBlur_eq _ _ _ _ _ Hval) |].
    apply area_reported_forall.
  - pose proof (area_commit_reports (Some (props i, state i)) p (state i))
      as Hr.
    destruct (area_commit_verdict (Some (props i, state i)) p (state i))
      as (Hv & _ & _).
    destruct (commit _ p (state i)) as [s2 c2]. simpl in *. by rewrite Hv.
Qed.

Lemma area_render_keeps_verdict_holds i p :
  props (step i (Render p)).1 = p
  ∧ isValid (state (step i (Render p)).1) = isValid (state i)
  ∧ errorMessage (state (step i (Render p)).1) = errorMessage (state i)
  ∧ change_calls (step i (Render p)).2 = [].
Proof.
  unfold step.
  destruct (area_commit_verdict (Some (props i, state i)) p (state i))
    as (Hv & Hm & Hc).
  by destruct (commit _ p (state i)).
Qed.

(** X14.  A render of InputArea with new props validates nothing: validity
    and message stay as they were, whatever the new value or the new
    [required], and the change notifier is not called. *)
Theorem area_render_keeps_verdict i p :
  props (step i (Render p)).1 = p
  ∧ isValid (state (step i (Render p)).1) = isValid (state i)
  ∧ errorMessage (state (step i (Render p)).1) = errorMessage (state i)
  ∧ change_calls (step i (Render p)).2 = [].
Proof. apply area_render_keeps_verdict_holds. Qed.

(** The verdict of [validateInput] on a value is decided by the kind, by
    [required] and by the value. *)
Lemma area_verdict_of_value p q v s s' :
  type p = type q → required p = required q →
  isValid (exec (validateInput p v) s).1
  = isValid (exec (validateInput q v) s').1
  ∧ errorMessage (exec (validateInput p v) s).1
    = errorMessage (exec (validateInput q v) s').1.
Proof.
  intros Hk Hr. unfold exec.
  destruct (truthy (trim v)) eqn:Hv.
  - destruct (test resourceDescriptionRegex v) eqn:Ht.
    + rewrite !area_validate_accepted by (done || congruence). done.
    + by rewrite !area_validate_rejected.
  - destruct (required q) eqn:Hq.
    + rewrite !area_validate_required by (done || congruence). done.
    + rewrite !area_validate_accepted by (done || congruence). done.
Qed.

(** X15.  Validation on focus loss agrees with validation on change: once
    a change to [v] has been handled and the caller has rendered the
    field with [v] as its value, a focus loss leaves validity and message
    as the change left them. *)
Theorem area_blur_confirms_change i v :
  isEditing (props i) = true →
  isValid
    (state (steps i [Change v; Render (with_value v (props i)); Blur]).1)
  = isValid (state (step i (Change v)).1)
  ∧ errorMessage
      (state (steps i [Change v; Render (with_value v (props i)); Blur]).1)
    = errorMessage (state (step i (Change v)).1).
Proof.
  intros He.
  assert (∀ j m ok msg c,
            m (state j) =
              (tt, {| isValid := ok; errorMessage := msg;
                      characterCount := characterCount (state j) |}, c) →
            (handle j m).1 =
              {| props := props j;
                 state := {| isValid := ok; errorMessage := msg;
                             characterCount := characterCount (state j) |} |})
    as Hh.
  { intros j m ok msg c Hm. unfold handle, exec. rewrite Hm.
    set (s1 := {| isValid := ok; errorMessage := msg;
                  characterCount := characterCount (state j) |}).
    pose proof (area_commit_same_state (props j) (state j) s1) as Hs.
    destruct (commit _ _ s1) as [s2 c2]. simpl in *. by subst. }
  destruct (area_validate_cases (props i) v (state i))
    as (ok & msg & Hval & _ & _).
  pose proof (Hh i _ _ _ _ (area_onChange_eq _ _ _ _ _ _ Hval)) as H1.
  assert (step i (Change v) = handle i (textarea_onChange (props i) v)) as E1
    by (unfold step; by rewrite He).
  cbn [steps]. rewrite E1.
  destruct (handle i (textarea_onChange (props i) v)) as [i1 c1].
  simpl in H1. subst i1. cbn [fst].
  set (i1 := {| props := props i;
                state := {| isValid := ok; errorMessage := msg;
                            characterCount := characterCount (state i) |} |}).
  destruct (area_render_keeps_verdict_holds i1 (with_value v (props i)))
    as (Hp2 & Hv2 & Hm2 & _).
  destruct (step i1 (Render (with_value v (props i)))) as [i2 c2].
  simpl in Hp2, Hv2, Hm2.
  assert (isEditing (props i2) = true) as He2 by (by rewrite Hp2).
  assert (step i2 Blur = handle i2 (handleBlur (props i2))) as E3
    by (unfold step; by rewrite He2).
  rewrite E3.
  destruct (area_validate_cases (props i2) (value (props i2)) (state i2))
    as (ok3 & msg3 & Hval3 & _ & _).
  pose proof (Hh i2 _ _ _ _ (area_handleBlur_eq _ _ _ _ _ Hval3)) as H3.
  destruct (handle i2 (handleBlur (props i2))) as [i3 c3].
  simpl in H3. subst i3. simpl.
  destruct (area_verdict_of_value (props i2) (props i) v (state i2) (state i))
    as [Ev Em]; [by rewrite Hp2 | by rewrite Hp2 |].
  unfold exec in Ev, Em. rewrite Hp2 in Hval3. simpl in Hval3.
  rewrite Hp2 in Ev, Em. rewrite Hval3, Hval in Ev, Em. simpl in Ev, Em.
  by subst.
Qed.

Lemma area_blur_confirms_change_witness :
  isValid
    (state
       (steps (mount Default).1
          [Change (lit "a!"); Render (with_value (lit "a!") Default);
           Blur]).1)
  = false.
Proof.
  exact (eq_trans
           (proj1 (area_blur_confirms_change (mount Default).1 (lit "a!")
                     eq_refl))
           eq_refl).
Defined.

Lemma area_commit_count prev p s :
  characterCount (commit prev p s).1
  = (if changed ((λ r, value r.1) <$> prev) (value p)
     then length (value p) else characterCount s).
Proof.
  unfold commit, exec. rewrite area_effects_eq.
  cbv zeta. rewrite area_effects_eq. simpl fmap. rewrite !changed_same.
  by destruct (changed _ (value p)).
Qed.

Lemma area_step_count i e :
  characterCount (state i) = length (value (props i)) →
  characterCount (state (step i e).1)
  = length (value (props (step i e).1)).
Proof.
  intros Hi.
  assert (∀ m ok msg c,
            m (state i) =
              (tt, {| isValid := ok; errorMessage := msg;
                      characterCount := characterCount (state i) |}, c) →
            characterCount (state (handle i m).1)
            = length (value (props (handle i m).1))) as Hh.
  { intros m ok msg c Hm. unfold handle, exec. rewrite Hm.
    set (s1 := {| isValid := ok; errorMessage := msg;
                  characterCount := characterCount (state i) |}).
    pose proof (area_commit_same_state (props i) (state i) s1) as Hs.
    destruct (commit _ _ s1) as [s2 c2]. simpl in *. by subst. }
  destruct e as [v | | p]; unfold step.
  - destruct (isEditing (props i)); [| done].
    destruct (area_validate_cases (props i) v (state i))
      as (ok & msg & Hval & _ & _).
    eapply Hh. exact (area_onChange_eq _ _ _ _ _ _ Hval).
  - destruct (isEditing (props i)); [| done].
    destruct (area_validate_cases (props i) (value (props i)) (state i))
      as (ok & msg & Hval & _ & _).
    eapply Hh. exact (area_handleBlur_eq _ _ _ _ _ Hval).
  - pose proof (area_commit_count (Some (props i, state i)) p (state i))
      as H.
    destruct (commit _ p (state i)) as [s2 c2]. simpl in *. rewrite H.
    destruct (decide (value (props i) = value p)) as [Heq | Hne].
    + rewrite bool_decide_eq_true_2 by done. simpl. by rewrite <- Heq.
    + by rewrite bool_decide_eq_false_2.
Qed.



End AreaEvents.

(** ** The guard on the validation-state notifier *)

Section Guard.

Lemma area_reported_none p b :
  InputArea.onValidationChange p = None → InputArea.reported p b = [].
Proof. intros H. unfold InputArea.reported. by rewrite H. Qed.

Lemma field_reported_none p b :
  InputField.onValidationChange p = None → InputField.reported p b = [].
Proof. intros H. unfold InputField.reported. by rewrite H. Qed.

Lemma area_commit_silent prev p s :
  InputArea.onValidationChange p = None →
  (InputArea.commit prev p s).2 = [].
Proof.
  intros Hn. unfold InputArea.commit, exec. rewrite area_effects_eq.
  cbv zeta. rewrite area_effects_eq. cbn [snd].
  rewrite !area_reported_none by done. by do 2 destruct (changed _ (_, _)).
Qed.

Lemma field_commit_silent prev p s :
  InputField.onValidationChange p = None →
  (InputField.commit prev p s).2 = [].
Proof.
  intros Hn. destruct (field_commit_eq prev p s) as (_ & _ & ->).
  rewrite !field_reported_none by done.
  by destruct (changed _ (InputField.isValid s)), (_ && _ && _).
Qed.

(** X17.  Without a validation-state notifier in the props (and none
    brought by the render, when the event is one), no event of either
    component produces a validation report; InputArea then calls nothing
    but the change notifier. *)
Theorem no_notifier_no_report :
  (∀ i e,
     InputArea.onValidationChange (InputArea.props i) = None →
     (∀ p, e = InputArea.Render p → InputArea.onValidationChange p = None) →
     InputArea.validation_calls (InputArea.step i e).2 = []
     ∧ (InputArea.step i e).2
       = map InputArea.OnChange
           (InputArea.change_calls (InputArea.step i e).2))
  ∧ (∀ i e,
       InputField.onValidationChange (InputField.props i) = None →
       (∀ p, e = InputField.Render p →
             InputField.onValidationChange p = None) →
       InputField.validation_calls (InputField.step i e).2 = []).
Proof.
  split.
  - intros i e Hn He.
    destruct e as [v | | p]; unfold InputArea.step.
    + destruct (InputArea.isEditing (InputArea.props i)); [| done].
      destruct (area_validate_cases (InputArea.props i) v (InputArea.state i))
        as (ok & msg & Hval & _ & _).
      unfold InputArea.handle, exec.
      rewrite (area_onChange_eq _ _ _ _ _ _ Hval).
      pose proof (area_commit_silent
                    (Some (InputArea.props i, InputArea.state i))
                    (InputArea.props i)
                    {| InputArea.isValid := ok;
                       InputArea.errorMessage := msg;
                       InputArea.characterCount :=
                         InputArea.characterCount (InputArea.state i) |} Hn)
        as Hc.
      destruct (InputArea.commit _ _ _) as [s2 c2]. simpl in Hc. subst c2.
      cbn [snd]. rewrite area_reported_none by done.
      by destruct (bool_decide _), ok.
    + destruct (InputArea.isEditing (InputArea.props i)); [| done].
      destruct (area_validate_cases (InputArea.props i)
                  (InputArea.value (InputArea.props i)) (InputArea.state i))
        as (ok & msg & Hval & _ & _).
      unfold InputArea.handle, exec.
      rewrite (area_handleBlur_eq _ _ _ _ _ Hval).
      pose proof (area_commit_silent
                    (Some (InputArea.props i, InputArea.state i))
                    (InputArea.props i)
                    {| InputArea.isValid := ok;
                       InputArea.errorMessage := msg;
                       InputArea.characterCount :=
                         InputArea.characterCount (InputArea.state i) |} Hn)
        as Hc.
      destruct (InputArea.commit _ _ _) as [s2 c2]. simpl in Hc. subst c2.
      cbn [snd]. by rewrite area_reported_none.
    + pose proof (area_commit_silent
                    (Some (InputArea.props i, InputArea.state i)) p
                    (InputArea.state i) (He p eq_refl)) as Hc.
      destruct (InputArea.commit _ p _) as [s2 c2]. simpl in Hc. by subst c2.
  - intros i e Hn He. destruct e as [v | | p].
    + unfold InputField.step.
      destruct (InputField.isEditing (InputField.props i)) eqn:Hed; [| done].
      unfold InputField.handle, exec.
      by rewrite field_input_onChange_eq, field_commit_idle.
    + unfold InputField.step.
      destruct (InputField.isEditing (InputField.props i)) eqn:Hed; [| done].
      unfold InputField.handle, exec.
      destruct (decide (InputField.usedFor (InputField.props i)
                        = Some (lit "range"))) as [Hr | Hr].
      * rewrite field_handleBlur_range, field_commit_idle by done.
        by destruct (bool_decide _).
      * rewrite field_handleBlur_validate by done.
        destruct (field_validate_cases (InputField.props i)
                    (InputField.state i) (InputField.state i))
          as (ok & msg & Hval & _).
        rewrite Hval.
        pose proof (field_commit_silent
                      (Some (InputField.props i, InputField.state i))
                      (InputField.props i)
                      {| InputField.isValid := ok;
                         InputField.errorMessage := msg;
                         InputField.characterCount :=
                           InputField.characterCount (InputField.state i) |}
                      Hn) as Hc.
        destruct (InputField.commit _ _ _) as [s2 c2]. simpl in Hc. subst c2.
        cbn [snd]. by rewrite field_reported_none.
    + unfold InputField.step.
      pose proof (field_commit_silent
                    (Some (InputField.props i, InputField.state i)) p
                    (InputField.state i) (He p eq_refl)) as Hc.
      destruct (InputField.commit _ p _) as [s2 c2]. simpl in Hc. by subst c2.
Qed.

Lemma no_notifier_no_report_witness :
  InputArea.validation_calls
    (InputArea.step (InputArea.mount InputArea.Default).1
       (InputArea.Change (lit "a!"))).2 = []
  ∧ InputField.validation_calls
      (InputField.step (InputField.mount InputField.Default).1
         InputField.Blur).2 = [].
Proof.
  split.
  - apply (proj1 no_notifier_no_report
             (InputArea.mount InputArea.Default).1
             (InputArea.Change (lit "a!"))); [reflexivity | discriminate].
  - apply (proj2 no_notifier_no_report
             (InputField.mount InputField.Default).1 InputField.Blur);
      [reflexivity | discriminate].
Defined.

End Guard.

(** ** What the user sees *)

Section AreaView.
Import View InputArea InputAreaView.

(** X18.  InputArea out of edit mode renders no textarea, no error
    caption and no counter, even when it is invalid: after the label (and
    the required marker, shown when the field is required and has a
    label) it shows the value, or [No Data] when the value is empty. *)
Theorem area_view_read_only p d s :
  isEditing p = false →
  elements "textarea" (render p d s) = []
  ∧ leaves (render p d s) =
      (if truthy (label p) then [Text (label p)] else [])
      ++ (if required p && truthy (label p) then [Text (lit " *")] else [])
      ++ [Text (if truthy (value p) then value p else lit "No Data")].
Proof.
  intros He. unfold render. rewrite He. split.
  { by destruct (required p), (truthy (label p)). }
  cbn [leaves flat_map cond negb app]. rewrite !app_nil_r.
  destruct (required p), (truthy (label p)) eqn:Hl; cbn [leaves andb];
    rewrite ?Hl; cbn [app]; unfold or_else;
    destruct (value p) as [| c v]; reflexivity.
Qed.

Lemma area_view_read_only_witness :
  leaves
    (render
       {| label := lit "Description"; value := []; type := description;
          required := true; onValidationChange := None; isEditing := false |}
       InputAreaStory.display
       {| isValid := false; errorMessage := lit "Field is required.";
          characterCount := 0 |})
  = [Text (lit "Description"); Text (lit " *"); Text (lit "No Data")].
Proof.
  exact (proj2 (area_view_read_only
                  {| label := lit "Description"; value := [];
                     type := description; required := true;
                     onValidationChange := None; isEditing := false |}
                  InputAreaStory.display
                  {| isValid := false;
                     errorMessage := lit "Field is required.";
                     characterCount := 0 |} eq_refl)).
Defined.

(** X19.  In edit mode the tree of InputArea holds exactly one textarea;
    it carries the current value, the own change and blur handlers and
    [required] as a boolean, and it carries the red border class exactly
    when the field is invalid. *)
Theorem area_view_control p d s :
  isEditing p = true →
  ∃ control,
    elements "textarea" (render p d s) = [control]
    ∧ attr "value" control = Some (AStr (value p))
    ∧ attr "onChange" control = Some (AOwn OwnChange)
    ∧ attr "onBlur" control = Some (AOwn OwnBlur)
    ∧ attr "required" control = Some (ABool (required p))
    ∧ has_class (lit "border-red-500") control = negb (isValid s).
Proof.
  intros He. unfold render. rewrite He.
  destruct (required p), (truthy (label p)), (isValid s),
    (maxLength d) as [[| n] |];
    eexists; (split; [reflexivity |]); repeat split; by vm_compute.
Qed.

Lemma area_view_control_witness :
  ∃ control,
    elements "textarea"
      (render Default InputAreaStory.display (initial Default)) = [control]
    ∧ has_class (lit "border-red-500") control = false.
Proof.
  destruct (area_view_control Default InputAreaStory.display (initial Default)
              eq_refl) as (control & H1 & _ & _ & _ & _ & H2).
  exists control. by split.
Defined.



End AreaView.

Section FieldView.
Import View InputField InputFieldView.

(** X21.  InputField out of edit mode renders no input, no required
    marker, no error caption and no counter: after the label (shown when
    it is non-empty and not hidden) it shows [No Data] for a missing
    value, the empty string and the numbers zero and not-a-number, and a
    non-empty string as it is. *)
Theorem field_view_read_only p d s :
  isEditing p = false →
  elements "input" (render p d s) = []
  ∧ (value_truthy (value p) = false →
     leaves (render p d s) =
       (if truthy (label p) && negb (default false (hideLabel d))
        then [Text (label p)] else [])
       ++ [Text (lit "No Data")])
  ∧ (∀ t, value p = ValString t → t ≠ [] →
     leaves (render p d s) =
       (if truthy (label p) && negb (default false (hideLabel d))
        then [Text (label p)] else [])
       ++ [Text t]).
Proof.
  intros He. unfold render. rewrite He. split; [| split].
  - unfold value_or_no_data.
    by destruct (truthy (label p)), (default false (hideLabel d)),
         (required p), (value_truthy (value p)).
  - intros Hv. unfold value_or_no_data. rewrite Hv.
    destruct (truthy (label p)) eqn:Hl, (default false (hideLabel d)),
      (required p);
      cbn [leaves flat_map cond negb app andb]; by rewrite ?Hl.
  - intros t Hv Ht. unfold value_or_no_data. rewrite Hv.
    destruct t as [| c t]; [done |].
    destruct (truthy (label p)) eqn:Hl, (default false (hideLabel d)),
      (required p);
      cbn [leaves flat_map cond negb app andb]; by rewrite ?Hl.
Qed.

Lemma field_view_read_only_witness :
  leaves
    (render
       {| label := lit "Amount"; value := ValNumber (lit "0");
          type := number; required := true; onValidationChange := None;
          isEditing := false; usedFor := None; handleFocusOut := None;
          errorObject := None |}
       InputFieldStory.display (initial Default))
  = [Text (lit "Amount"); Text (lit "No Data")].
Proof.
  exact (proj1 (proj2 (field_view_read_only
                  {| label := lit "Amount"; value := ValNumber (lit "0");
                     type := number; required := true;
                     onValidationChange := None; isEditing := false;
                     usedFor := None; handleFocusOut := None;
                     errorObject := None |}
                  InputFieldStory.display (initial Default) eq_refl))
               eq_refl).
Defined.

(** The tokens of two class strings joined by a space. *)
Lemma class_tokens_from_space cur a b :
  Button.class_tokens_from cur (a ++ 32%N :: b)
  = Button.class_tokens_from cur a ++ Button.class_tokens b.
Proof.
  revert cur. induction a as [| c a IH]; intros cur.
  - simpl. by destruct cur.
  - cbn [app Button.class_tokens_from].
    destruct (Button.is_class_separator c).
    + destruct cur; by rewrite IH.
    + apply IH.
Qed.

Lemma class_tokens_space a b :
  Button.class_tokens (a ++ 32%N :: b)
  = Button.class_tokens a ++ Button.class_tokens b.
Proof. apply class_tokens_from_space. Qed.

(** X22.  In edit mode the tree of InputField holds exactly one input; it
    carries the kind as its type, the current value, the own change and
    blur handlers and [required] as a boolean.  It carries the red border
    class exactly when the field is invalid or the caller's
    [additionalClass] names that class. *)
Theorem field_view_control p d s :
  isEditing p = true →
  ∃ control,
    elements "input" (render p d s) = [control]
    ∧ attr "type" control = Some (AStr (lit (kind_name (type p))))
    ∧ attr "value" control = Some (value_attr (value p))
    ∧ attr "onChange" control = Some (AOwn OwnChange)
    ∧ attr "onBlur" control = Some (AOwn OwnBlur)
    ∧ attr "required" control = Some (ABool (required p))
    ∧ has_class (lit "border-red-500") control
      = bool_decide (lit "border-red-500"
                     ∈ Button.class_tokens (tpl_opt (additionalClass d)))
        || negb (isValid s).
Proof.
  intros He. unfold render. rewrite He.
  assert (∀ rest : jsstring,
            bool_decide
              (lit "border-red-500"
               ∈ Button.class_tokens
                   (tpl_opt (additionalClass d) ++ 32%N :: rest))
            = bool_decide (lit "border-red-500"
                           ∈ Button.class_tokens
                               (tpl_opt (additionalClass d)))
              || bool_decide (lit "border-red-500"
                              ∈ Button.class_tokens rest)) as Htok.
  { intros rest. rewrite class_tokens_space.
    rewrite <- bool_decide_or. apply bool_decide_ext, elem_of_app. }
  destruct (required p), (truthy (label p)), (default false (hideLabel d)),
    (default false (disabled d)), (isValid s), (maxLength d) as [[| n] |];
    eexists; (split; [reflexivity |]); repeat split;
    try (by vm_compute);
    unfold has_class;
    cbn [attr find fst snd fmap option_fmap option_map];
    (rewrite bool_decide_eq_true_2 by done);
    cbn [fmap option_fmap option_map snd];
    (etrans; [apply Htok |]); f_equal; by vm_compute.
Qed.

Lemma field_view_control_witness :
  ∃ control,
    elements "input"
      (render Default InputFieldStory.display (initial Default)) = [control]
    ∧ attr "type" control = Some (AStr (lit "email")).
Proof.
  destruct (field_view_control Default InputFieldStory.display
              (initial Default) eq_refl) as (control & H1 & H2 & _).
  exists control. by split.
Defined.

End FieldView.

Section FieldViewEditing.
Import View InputField InputFieldView.



End FieldViewEditing.

(** ** The stories *)

Section AreaStory.
Import InputArea InputAreaStory.

(** The value the story keeps after the calls of one event. *)
Lemma area_story_handleChange v old (a b : bool) :
  foldl (λ _ w : jsstring, w) old
    ((if a then [v] else []) ++ (if b then [v] else []))
  = if a || b then v else old.
Proof. by destruct a, b. Qed.

Lemma area_blur_change_calls i :
  change_calls (InputArea.step i Blur).2 = [].
Proof.
  unfold InputArea.step. destruct (isEditing (props i)); [| done].
  destruct (area_validate_cases (props i) (InputArea.value (props i)) (state i))
    as (ok & msg & Hval & _ & _).
  unfold handle, exec. rewrite (area_handleBlur_eq _ _ _ _ _ Hval).
  destruct (area_commit_verdict (Some (props i, state i)) (props i)
              {| isValid := ok; errorMessage := msg;
                 characterCount := characterCount (state i) |})
    as (_ & _ & Hc).
  destruct (commit _ _ _) as [s2 c2]. simpl in *.
  by rewrite area_change_calls_app, Hc, area_change_calls_reported.
Qed.

(** One user event of the story, from a state in which the field holds
    the story's value. *)
Lemma area_story_step st e :
  props (field st) = props_of (value st) →
  props (field (step st e)) = props_of (value (step st e))
  ∧ match e with
    | Edit v =>
        value (step st e)
        = (if bool_decide (length v = 0%nat)
              || (truthy (trim v) && test resourceDescriptionRegex v)
           then v else value st)
        ∧ isValid (state (field (step st e)))
          = truthy (trim v) && test resourceDescriptionRegex v
    | Leave => value (step st e) = value st
    end.
Proof.
  intros Hp. unfold step.
  destruct e as [v |]; cbn [event_of].
  - assert (isEditing (props (field st)) = true) as He by (by rewrite Hp).
    destruct (area_change_step (field st) v He) as (ok & Hok & Hv & Hc).
    assert (ok = truthy (trim v) && test resourceDescriptionRegex v) as Eok.
    { destruct (area_validate_cases (props (field st)) v (state (field st)))
        as (ok' & msg & Hval & _ & Hcases).
      rewrite Hval in Hok. simpl in Hok. subst ok'. rewrite Hp in Hcases.
      simpl in Hcases.
      destruct ok, (truthy (trim v)), (test resourceDescriptionRegex v);
        try done; exfalso.
      - assert (true = false) as H; [apply Hcases; by right | done].
      - assert (true = false) as H; [apply Hcases; by left | done].
      - assert (true = false) as H; [apply Hcases; by left | done].
      - destruct Hcases as [H _]. by destruct (H eq_refl) as [[? _] | [_ ?]]. }
    destruct (InputArea.step (field st) (Change v)) as [i1 c1].
    simpl in Hv, Hc. unfold handleChange. rewrite Hc.
    rewrite area_story_handleChange, <- Eok.
    set (v' := if bool_decide (length v = 0%nat) || ok then v else value st).
    destruct (area_render_keeps_verdict_holds i1 (props_of v'))
      as (Hp2 & Hv2 & _ & _).
    destruct (InputArea.step i1 (Render (props_of v'))) as [i2 c2].
    simpl in *. rewrite Hv2, Hv. done.
  - pose proof (area_blur_change_calls (field st)) as Hc.
    destruct (InputArea.step (field st) Blur) as [i1 c1].
    simpl in Hc. unfold handleChange. rewrite Hc. cbn [foldl].
    destruct (area_render_keeps_verdict_holds i1 (props_of (value st)))
      as (Hp2 & _).
    destruct (InputArea.step i1 (Render (props_of (value st)))) as [i2 c2].
    simpl in *. by split.
Qed.

Lemma area_story_props es : props (field (run es)) = props_of (value (run es)).
Proof.
  unfold run. induction es as [| e es IH] using rev_ind; [done |].
  rewrite foldl_app. simpl. by apply area_story_step.
Qed.

(** X24.  In the InputArea story an edit reaches the story's value when
    it empties the field or passes validation, and is dropped otherwise,
    while the field's validity is the verdict on what was typed either
    way; a focus loss leaves the value alone.  Hence the value the story
    holds is always empty or acceptable: non-blank and matching the
    description pattern. *)
Theorem area_story_value es :
  (∀ v,
     value (step (run es) (Edit v))
     = (if bool_decide (length v = 0%nat)
           || (truthy (trim v) && test resourceDescriptionRegex v)
        then v else value (run es))
     ∧ isValid (state (field (step (run es) (Edit v))))
       = truthy (trim v) && test resourceDescriptionRegex v)
  ∧ value (step (run es) Leave) = value (run es)
  ∧ (value (run es) = []
     ∨ truthy (trim (value (run es))) = true
       ∧ test resourceDescriptionRegex (value (run es)) = true).
Proof.
  split; [| split].
  - intros v. apply (area_story_step (run es) (Edit v)), area_story_props.
  - apply (area_story_step (run es) Leave), area_story_props.
  - induction es as [| e es IH] using rev_ind; [by left |].
    unfold run in *. rewrite foldl_app. simpl.
    pose proof (area_story_props es) as Hp. unfold run in Hp.
    destruct (area_story_step (foldl step start es) e Hp) as [_ He].
    destruct e as [v |].
    + destruct He as [-> _].
      destruct (bool_decide (length v = 0%nat)) eqn:Hlen; simpl.
      * left. apply bool_decide_eq_true_1 in Hlen. by destruct v.
      * destruct (truthy (trim v) && test resourceDescriptionRegex v)
          eqn:Hok; [| done].
        right. by apply andb_true_iff in Hok.
    + by rewrite He.
Qed.

End AreaStory.

Section AreaStoryView.
Import View InputArea InputAreaStory.

Lemma area_story_state es :
  invariant (state (field (run es)))
  ∧ characterCount (state (field (run es))) = length (value (run es)).
Proof.
  assert (∀ st e,
            props (field st) = props_of (value st) →
            invariant (state (field st)) →
            characterCount (state (field st))
            = length (InputArea.value (props (field st))) →
            invariant (state (field (step st e)))
            ∧ characterCount (state (field (step st e)))
              = length (InputArea.value (props (field (step st e)))))
    as Hstep.
  { intros st e Hp Hi Hc. unfold step.
    pose proof (area_step_invariant (field st) (event_of e) Hi) as Hi1.
    pose proof (area_step_count (field st) (event_of e) Hc) as Hc1.
    destruct (InputArea.step (field st) (event_of e)) as [i1 c1].
    simpl in Hi1, Hc1.
    set (v := handleChange c1 (value st)).
    pose proof (area_step_invariant i1 (Render (props_of v)) Hi1) as Hi2.
    pose proof (area_step_count i1 (Render (props_of v)) Hc1) as Hc2.
    by destruct (InputArea.step i1 (Render (props_of v))) as [i2 c2]. }
  assert (invariant (state (field (run es)))
          ∧ characterCount (state (field (run es)))
            = length (InputArea.value (props (field (run es))))) as H.
  { induction es as [| e es IH] using rev_ind.
    - split; [by split | reflexivity].
    - pose proof (area_story_props es) as Hp.
      unfold run in *. rewrite foldl_app. cbn [foldl].
      destruct IH as [IH1 IH2]. by apply Hstep. }
  destruct H as [H1 H2]. split; [done |].
  by rewrite H2, area_story_props.
Qed.

(** X25.  What the InputArea story shows after any sequence of edits and
    focus losses: the label and the required marker, the error message
    exactly when the field is invalid, and the length of the value the
    story holds over 200. *)
Theorem area_story_view es :
  leaves (InputAreaView.view display (field (run es))) =
    [Text (lit "Description"); Text (lit " *")]
    ++ (if isValid (state (field (run es))) then []
        else [Text (errorMessage (state (field (run es))))])
    ++ [Number (length (value (run es))); Text (lit "/"); Number 200].
Proof.
  destruct (area_story_state es) as [Hinv Hcount].
  pose proof (area_story_props es) as Hp.
  unfold InputAreaView.view, InputAreaView.render. rewrite Hp, Hcount.
  destruct (state (field (run es))) as [ok msg n]. simpl in Hinv.
  unfold invariant in Hinv. simpl in Hinv.
  destruct ok.
  - reflexivity.
  - destruct msg as [| c msg]; [by destruct Hinv as [_ H]; destruct H |].
    reflexivity.
Qed.

End AreaStoryView.

Section FieldStory.
Import View InputField InputFieldStory.

(** A string the email pattern accepts is not blank. *)
Lemma email_not_blank s :
  test emailRegex s = true → truthy (trim s) = true.
Proof.
  intros H. destruct (trim s) eqn:Ht; [| done].
  apply trim_nil in Ht. pose proof (email_one_at_sign_holds s H) as [Hws Hat].
  destruct s as [| c s]; [done |]. simpl in Ht, Hws.
  apply andb_true_iff in Ht as [Ht _]. apply andb_true_iff in Hws as [Hws _].
  by rewrite Ht in Hws.
Qed.

Lemma field_story_step st e :
  props (field st) = props_of (value st) →
  props (field (step st e)) = props_of (value (step st e))
  ∧ match e with
    | Edit v =>
        value (step st e) = v
        ∧ isValid (state (field (step st e))) = isValid (state (field st))
        ∧ errorMessage (state (field (step st e)))
          = errorMessage (state (field st))
    | Leave =>
        value (step st e) = value st
        ∧ isValid (state (field (step st e)))
          = test emailRegex (value st)
        ∧ errorMessage (state (field (step st e)))
          = (if test emailRegex (value st) then []
             else if truthy (trim (value st))
                  then lit "Invalid email format."
                  else lit "Email is required.")
    end.
Proof.
  intros Hp. unfold step.
  assert (isEditing (props (field st)) = true) as He by (by rewrite Hp).
  assert (∀ x, error_flag (props_of x) = None) as Hflag by done.
  destruct e as [v |]; cbn [event_of].
  - rewrite (field_change_step (field st) v He).
    unfold handleChange. change (change_calls [OnChange v]) with [v].
    cbn [foldl].
    destruct (field_render_step (field st) (props_of v)) as (Hp2 & Hv2 & Hm2).
    rewrite Hp, !Hflag in Hv2, Hm2.
    rewrite (bool_decide_eq_false_2 (None = Some true)) in Hv2, Hm2 by done.
    rewrite andb_false_r in Hv2, Hm2.
    destruct (InputField.step (field st) (Render (props_of v))) as [i2 c2].
    simpl in *. by rewrite Hp2.
  - destruct (field_blur_step (field st) He)
      as (ok & msg & Hval & _ & Hp1 & Hv1 & Hm1 & Hc1);
      [by rewrite Hp |].
    assert (ok = test emailRegex (value st)
            ∧ msg = (if test emailRegex (value st) then []
                     else if truthy (trim (value st))
                          then lit "Invalid email format."
                          else lit "Email is required.")) as [Eok Emsg].
    { rewrite Hp in Hval. unfold exec in Hval.
      assert (blank (InputField.value (props_of (value st)))
              = negb (truthy (trim (value st)))) as Hb by done.
      assert (required (props_of (value st)) = true) as Hr by done.
      assert (rule_of (type (props_of (value st)))
              = Some {| regex := emailRegex;
                        message := lit "Invalid email format." |})
        as Hrule by done.
      assert (rule_rejects (rule_of (type (props_of (value st))))
                (InputField.value (props_of (value st)))
              = bool_decide (length (value st) ≠ 0%nat)
                && negb (test emailRegex (value st))) as Hrej by done.
      destruct (truthy (trim (value st))) eqn:Ht.
      - destruct (test emailRegex (value st)) eqn:Hm.
        + rewrite field_validate_accepted in Hval.
          * by injection Hval as <- <-.
          * by rewrite Hb.
          * by rewrite Hrej, andb_false_r.
        + rewrite (field_validate_rejected _ _ _
                     {| regex := emailRegex;
                        message := lit "Invalid email format." |})
            in Hval.
          * by injection Hval as <- <-.
          * by rewrite Hb.
          * done.
          * rewrite <- Hrule, Hrej. destruct (value st); [done |].
            by rewrite bool_decide_eq_true_2.
      - assert (test emailRegex (value st) = false) as Hm.
        { apply not_true_iff_false. intros Hm.
          apply email_not_blank in Hm. congruence. }
        rewrite Hm. rewrite field_validate_required in Hval.
        + by injection Hval as <- <-.
        + by rewrite Hb.
        + done. }
    destruct (InputField.step (field st) Blur) as [i1 c1].
    simpl in Hp1, Hv1, Hm1, Hc1. unfold handleChange.
    assert (change_calls c1 = []) as ->.
    { rewrite Hc1. unfold change_calls. rewrite omap_app.
      fold (change_calls (reported (props (field st)) (isValid (state (field st))))).
      rewrite field_change_calls_reported.
      destruct (bool_decide _); [done |].
      apply field_change_calls_reported. }
    cbn [foldl].
    destruct (field_render_step i1 (props_of (value st)))
      as (Hp2 & Hv2 & Hm2).
    rewrite Hp1, Hp, !Hflag in Hv2, Hm2.
    rewrite (bool_decide_eq_false_2 (None = Some true)) in Hv2, Hm2 by done.
    rewrite andb_false_r in Hv2, Hm2.
    destruct (InputField.step i1 (Render (props_of (value st))))
      as [i2 c2].
    simpl in *. rewrite Hp2, Hv2, Hm2, Hv1, Hm1, Eok, Emsg. done.
Qed.

Lemma field_story_props es :
  props (field (run es)) = props_of (value (run es)).
Proof.
  unfold run. induction es as [| e es IH] using rev_ind; [done |].
  rewrite foldl_app. simpl. by apply field_story_step.
Qed.

(** X26.  In the InputField story every edit reaches the story's value,
    valid or not, and leaves validity and message as they were; a focus
    loss then makes the field valid exactly when the value matches the
    email pattern, with the required message for a blank value and the
    format message for any other mismatch. *)
Theorem field_story_value es :
  (∀ v,
     value (step (run es) (Edit v)) = v
     ∧ isValid (state (field (step (run es) (Edit v))))
       = isValid (state (field (run es)))
     ∧ errorMessage (state (field (step (run es) (Edit v))))
       = errorMessage (state (field (run es))))
  ∧ value (step (run es) Leave) = value (run es)
  ∧ isValid (state (field (step (run es) Leave)))
    = test emailRegex (value (run es))
  ∧ errorMessage (state (field (step (run es) Leave)))
    = (if test emailRegex (value (run es)) then []
       else if truthy (trim (value (run es)))
            then lit "Invalid email format."
            else lit "Email is required.").
Proof.
  split.
  - intros v. apply (field_story_step (run es) (Edit v)), field_story_props.
  - apply (field_story_step (run es) Leave), field_story_props.
Qed.

End FieldStory.

Section FieldStoryView.
Import View InputField InputFieldStory.

Lemma field_story_state es :
  invariant (state (field (run es)))
  ∧ characterCount (state (field (run es))) = length (value (run es)).
Proof.
  assert (∀ st e,
            invariant (state (field st)) →
            characterCount (state (field st))
            = from_option length 0%nat
                (toString (InputField.value (props (field st)))) →
            invariant (state (field (step st e)))
            ∧ characterCount (state (field (step st e)))
              = from_option length 0%nat
                  (toString (InputField.value (props (field (step st e))))))
    as Hstep.
  { intros st e Hi Hc. unfold step.
    assert (event_has_message (event_of e)) as Hev by (by destruct e).
    pose proof (field_step_invariant (field st) (event_of e) Hev Hi) as Hi1.
    pose proof (field_step_count (field st) (event_of e) Hc) as Hc1.
    destruct (InputField.step (field st) (event_of e)) as [i1 c1].
    simpl in Hi1, Hc1.
    set (v := handleChange c1 (value st)).
    assert (event_has_message (Render (props_of v))) as Hev2
      by (intros o Ho; discriminate Ho).
    pose proof (field_step_invariant i1 (Render (props_of v)) Hev2 Hi1)
      as Hi2.
    pose proof (field_step_count i1 (Render (props_of v)) Hc1) as Hc2.
    by destruct (InputField.step i1 (Render (props_of v))) as [i2 c2]. }
  assert (invariant (state (field (run es)))
          ∧ characterCount (state (field (run es)))
            = from_option length 0%nat
                (toString (InputField.value (props (field (run es))))))
    as H.
  { induction es as [| e es IH] using rev_ind.
    - split; [by split | reflexivity].
    - unfold run in *. rewrite foldl_app. cbn [foldl].
      destruct IH as [IH1 IH2]. by apply Hstep. }
  destruct H as [H1 H2]. split; [done |].
  by rewrite H2, field_story_props.
Qed.

(** X27.  What the InputField story shows after any sequence of edits
    and focus losses: the label and the required marker, the error
    message exactly when the field is invalid, and the length of the
    value the story holds over 50. *)
Theorem field_story_view es :
  leaves (InputFieldView.view display (field (run es))) =
    [Text (lit "Email"); Text (lit " *")]
    ++ (if isValid (state (field (run es))) then []
        else [Text (errorMessage (state (field (run es))))])
    ++ [Number (length (value (run es))); Text (lit "/"); Number 50].
Proof.
  destruct (field_story_state es) as [Hinv Hcount].
  pose proof (field_story_props es) as Hp.
  unfold InputFieldView.view, InputFieldView.render. rewrite Hp, Hcount.
  destruct (state (field (run es))) as [ok msg n]. simpl in Hinv.
  unfold invariant in Hinv. simpl in Hinv.
  destruct ok.
  - reflexivity.
  - destruct msg as [| c msg]; [by destruct Hinv as [_ H]; destruct H |].
    reflexivity.
Qed.

End FieldStoryView.
